(** * Summit-layer merging and reference reconciliation

    A shallow embedding of the QGIS processing algorithms of the repository:
    - [merge_landserf.py] ([MergeSummitLayers.processAlgorithm]): layer
      configuration, mutual nearest-neighbour matching, grouping by
      dictionary chaining, aggregation and ranking;
    - [topo_match.py] ([topo25match], spatial mode) and
      [topo_match_m.py] ([topo25match], key mode): reconciliation of
      summits against a reference layer. *)

From Stdlib Require Import QArith String Ascii Relations DecimalNat.
From stdpp Require Import base list gmap sorting strings.



(** ** Python run-time results *)

(** The exceptions the modelled code can raise. *)
Inductive py_error :=
  | ProcessingException (msg : string)  (* QgsProcessingException *)
  | KeyError
  | IndexError
  | ValueError
  | TypeError
  | UnboundLocalError.

Inductive result (A : Type) :=
  | Ok (a : A)
  | Err (e : py_error).
Arguments Ok {A} a.
Arguments Err {A} e.

Global Instance result_ret : MRet result := fun A a => Ok a.
Global Instance result_bind : MBind result :=
  fun A B k r => match r with Ok a => k a | Err e => Err e end.

Fixpoint mapM {A B} (f : A -> result B) (l : list A) : result (list B) :=
  match l with
  | [] => Ok []
  | x :: l' => y ← f x; ys ← mapM f l'; Ok (y :: ys)
  end.

(** ** Python built-ins used by the scripts *)
Module Py.

(** [enumerate(l)] *)
Definition enumerate {A} (l : list A) : list (nat * A) :=
  zip (seq 0 (length l)) l.

(** Python's [sorted] / [list.sort] are stable: an element is placed
    before an earlier one only when its key compares strictly smaller.
    [before x y] is that strict comparison ([key(x) < key(y)], or
    [key(y) < key(x)] with [reverse=True], which Python specifies to keep
    stability). Insertion in input order keeps equal keys in input
    order. *)
Fixpoint insert_before {A} (before : A -> A -> bool) (x : A) (l : list A)
  : list A :=
  match l with
  | [] => [x]
  | y :: l' => if before x y then x :: l else y :: insert_before before x l'
  end.

Definition sorted_by {A} (before : A -> A -> bool) (l : list A) : list A :=
  fold_left (fun acc x => insert_before before x acc) l [].

(** [str(n)] for a natural number. *)
Fixpoint string_of_uint (u : Decimal.uint) : string :=
  match u with
  | Decimal.Nil => EmptyString
  | Decimal.D0 u => String "0" (string_of_uint u)
  | Decimal.D1 u => String "1" (string_of_uint u)
  | Decimal.D2 u => String "2" (string_of_uint u)
  | Decimal.D3 u => String "3" (string_of_uint u)
  | Decimal.D4 u => String "4" (string_of_uint u)
  | Decimal.D5 u => String "5" (string_of_uint u)
  | Decimal.D6 u => String "6" (string_of_uint u)
  | Decimal.D7 u => String "7" (string_of_uint u)
  | Decimal.D8 u => String "8" (string_of_uint u)
  | Decimal.D9 u => String "9" (string_of_uint u)
  end.

Definition string_of_nat (n : nat) : string := string_of_uint (Nat.to_uint n).

(** [f'{n:04}']: the decimal digits, left-padded with zeros to at least
    four characters. *)
Definition format04 (n : nat) : string :=
  let d := string_of_nat n in
  String.append (String.concat EmptyString
                   (List.repeat "0"%string (4 - String.length d))) d.

(** [sum(l)] *)
Definition sum_Z (l : list Z) : Z := fold_right Z.add 0%Z l.

(** [x < y] on numbers. *)
Definition Qltb (x y : Q) : bool := negb (Qle_bool y x).

(** [option] lookups that raise in Python. *)
Definition get_or {A} (e : py_error) (o : option A) : result A :=
  match o with Some a => Ok a | None => Err e end.

(** Properties of a stable sort by a strict order [before]: no later
    element is strictly before an earlier one, and equal keys keep the
    order of a position [idx] that increases along the input. *)
Definition not_after {A} (before : A -> A -> bool) (x y : A) : Prop :=
  before y x = false.

Definition stable_after {A} (before : A -> A -> bool) (idx : A -> nat)
  (x y : A) : Prop :=
  before y x = false ∧ (before x y = false → idx x < idx y).
End Py.

(** ** The spatial index ([QgsSpatialIndex], a QGIS library class)

    [nearestNeighbor(point, neighbors, maxDistance)] returns the ids of
    the [neighbors] entries nearest to [point], nearest first, together
    with every further entry at the same distance as the last of them
    (libspatialindex reports all entries tied at the k-th distance); a
    [maxDistance] of 0 means no limit, otherwise entries further away are
    left out. The library leaves the order of equal distances open; here
    it is insertion order. Coordinates are planar. *)
Module Spatial.

Record point := Pt { px : Q; py : Q }.

Definition sqdist (p q : point) : Q :=
  ((px p - px q) * (px p - px q) + (py p - py q) * (py p - py q))%Q.

Definition within (d : Q) (q : point) (e : nat * point) : bool :=
  Qeq_bool d 0 || Qle_bool (sqdist q (snd e)) (d * d)%Q.

Definition nearestNeighbor (idx : list (nat * point)) (q : point) (k : nat)
  (d : Q) : list nat :=
  let cand := List.filter (within d q) idx in
  let byd := Py.sorted_by (fun a b => Py.Qltb (sqdist q (snd a))
                                             (sqdist q (snd b))) cand in
  match k with
  | 0 => []
  | S k' =>
      match nth_error byd k' with
      | None => map fst byd
      | Some e =>
          map fst (List.filter (fun e' => Qle_bool (sqdist q (snd e'))
                                                   (sqdist q (snd e))) byd)
      end
  end.

End Spatial.

(** ** Grouping by dictionary chaining ([merge_landserf.py], lines 278-290)

    [s i] and [c i] are the neighbour ids returned for record [i] by the
    anchor (summit) index and the col index. *)
Module Grouping.

(** [m = set(x for x in s if x in c)] *)
Definition mutual (s c : list nat) : list nat :=
  filter (fun x => x ∈ c) s.

(** [tuple(sorted(m))] for a Python set [m]. *)
Definition canon (m : list nat) : list nat :=
  merge_sort Nat.le (remove_dups m).

(** [m |= set(item for x in m if x in dmatch for item in dmatch[x])] *)
Definition expand (dmatch : gmap nat (list nat)) (m : list nat) : list nat :=
  m ++ (m ≫= fun x => match dmatch !! x with
                      | Some t => t
                      | None => []
                      end).

(** [for x in m: dmatch[x] = tuple(sorted(m))] *)
Definition assign (t : list nat) (m : list nat) (dmatch : gmap nat (list nat))
  : gmap nat (list nat) :=
  fold_left (fun acc x => <[x := t]> acc) m dmatch.

(** One iteration of the loop, for the record whose confirmed mutual
    matches are [m0]. *)
Definition step (dmatch : gmap nat (list nat)) (m0 : list nat)
  : gmap nat (list nat) :=
  let m := expand dmatch m0 in
  assign (canon m) m dmatch.

(** The loop [for i in range(len(summits))], generalised to an arbitrary
    processing order [ord]; the code uses [ord = seq 0 n]. *)
Definition build (s c : nat -> list nat) (ord : list nat)
  : gmap nat (list nat) :=
  fold_left (fun dm i => step dm (mutual (s i) (c i))) ord ∅.

(** [dm = set(dmatch.values())]: the distinct group tuples, in an
    iteration order the code does not fix (here: the map's order). *)
Definition groups (dmatch : gmap nat (list nat)) : list (list nat) :=
  remove_dups (snd <$> map_to_list dmatch).

(** Two records are in the same group when the dictionary maps both to
    the same tuple. *)
Definition same_group (dmatch : gmap nat (list nat)) (x y : nat) : Prop :=
  ∃ t, dmatch !! x = Some t ∧ dmatch !! y = Some t.

(** The match relation: [j] is a confirmed mutual match of record [i]. *)
Definition match_rel (n : nat) (s c : nat -> list nat) (i j : nat) : Prop :=
  i < n ∧ j ∈ mutual (s i) (c i).

(** The dictionary invariant maintained by the chaining loop: every key
    belongs to its own tuple, and every member of a tuple is mapped to
    that same tuple. *)
Definition chain_inv (dmatch : gmap nat (list nat)) : Prop :=
  ∀ x t, dmatch !! x = Some t → x ∈ t ∧ ∀ y, y ∈ t → dmatch !! y = Some t.

(** Records [x] and [y] are both confirmed mutual matches of one record
    [i] processed in [P] (one iteration of the loop links them). *)
Definition hyper (s c : nat -> list nat) (P : list nat) (x y : nat) : Prop :=
  ∃ i, i ∈ P ∧ x ∈ mutual (s i) (c i) ∧ y ∈ mutual (s i) (c i).

End Grouping.

(** ** [MergeSummitLayers.processAlgorithm] ([merge_landserf.py]) *)
Module Merge.
Import Spatial.
Local Open Scope string_scope.

(** An input feature: a line from the summit to the col, with the
    [Elevation] and [Col elevation] attributes. [None] geometry is a
    feature for which [hasGeometry()] is false. *)
Record in_feature := InFeature {
  in_geom : option (point * point);  (* vertexAt(0), last vertex *)
  in_ele : Z;
  in_col : Z
}.

Record layer := Layer { lname : string; lfeatures : list in_feature }.

(** [summits.append((dem, f['Elevation'], f['Col elevation'], g, gs, gc))] *)
Record summit := Summit {
  s_dem : string; s_ele : Z; s_col : Z; s_anchor : point; s_colpt : point
}.

Definition dummy_summit : summit := Summit "" 0 0 (Pt 0 0) (Pt 0 0).

(** [summits[i]]: the indices used are always in range. *)
Definition summit_at (summits : list summit) (i : nat) : summit :=
  nth i summits dummy_summit.

(** *** Layer configuration (lines 190-216) *)

(** The keys of [layerList], in order. *)
Definition dem_tags : list string := ["SRTM"; "ASTER"; "ALOS"; "TDX"; "GLO30"].

Definition ascii_upper (a : ascii) : ascii :=
  let n := nat_of_ascii a in
  if Nat.leb 97 n && Nat.leb n 122 then ascii_of_nat (n - 32)%nat else a.

(** [str.upper()] on ASCII text. *)
Fixpoint upper (s : string) : string :=
  match s with
  | EmptyString => EmptyString
  | String a s' => String (ascii_upper a) (upper s')
  end.

(** Case-insensitive match of the (upper-case) tag at the start of [s];
    returns the matched text. *)
Fixpoint match_ci (tag s : string) : option string :=
  match tag, s with
  | EmptyString, _ => Some EmptyString
  | String t tag', String a s' =>
      if Ascii.eqb (ascii_upper a) t then
        option_map (String a) (match_ci tag' s')
      else None
  | String _ _, EmptyString => None
  end.

(** The alternatives of the pattern, tried in order at one position. *)
Fixpoint match_alts (tags : list string) (s : string) : option string :=
  match tags with
  | [] => None
  | t :: tags' =>
      match match_ci t s with
      | Some m => Some m
      | None => match_alts tags' s
      end
  end.

(** [re.search('|'.join(layerList.keys()), name, re.I)]: the leftmost
    position where an alternative matches; [m.group(0)]. *)
Fixpoint re_search (tags : list string) (s : string) : option string :=
  match match_alts tags s with
  | Some m => Some m
  | None => match s with
            | EmptyString => None
            | String _ s' => re_search tags s'
            end
  end.

Definition layer_list := list (string * option layer).

Definition empty_layer_list : layer_list := map (fun t => (t, None)) dem_tags.

Fixpoint ll_lookup (ll : layer_list) (k : string) : option (option layer) :=
  match ll with
  | [] => None
  | (k', v) :: ll' => if String.eqb k k' then Some v else ll_lookup ll' k
  end.

Definition ll_set (ll : layer_list) (k : string) (l : layer) : layer_list :=
  map (fun '(k', v) => if String.eqb k k' then (k', Some l) else (k', v)) ll.

(** One iteration of the loop over [layers]. *)
Definition config_step (ll : layer_list) (l : layer) : result layer_list :=
  match re_search dem_tags (lname l) with
  | None => Err (ProcessingException
                   ("Layer name " ++ lname l ++ " does not infer a known DEM type"))
  | Some m =>
      match ll_lookup ll (upper m) with
      | Some (Some prev) =>
          (* the message reads [layerList[m.group(0)]], without [upper()] *)
          match ll_lookup ll m with
          | Some (Some prev') =>
              Err (ProcessingException
                     ("Layer " ++ lname l ++ " appears to be the same DEM as "
                      ++ lname prev'))
          | Some None => Err TypeError   (* None.name() *)
          | None => Err KeyError
          end
      | _ => Ok (ll_set ll (upper m) l)
      end
  end.

Fixpoint configure_from (ll : layer_list) (layers : list layer)
  : result layer_list :=
  match layers with
  | [] => Ok ll
  | l :: ls => ll' ← config_step ll l; configure_from ll' ls
  end.

Definition configure (layers : list layer) : result layer_list :=
  configure_from empty_layer_list layers.

(** *** Reading the summits (lines 244-275) *)

Definition layer_summits (dem : string) (l : layer) : list summit :=
  omap (fun f => match in_geom f with
                 | Some (gs, gc) => Some (Summit dem (in_ele f) (in_col f) gs gc)
                 | None => None
                 end) (lfeatures l).

Definition collect_summits (ll : layer_list) : list summit :=
  ll ≫= fun '(dem, ol) => match ol with
                          | Some l => layer_summits dem l
                          | None => []
                          end.

(** *** Neighbour lists (lines 278-286) *)

Definition anchor_index (summits : list summit) : list (nat * point) :=
  Py.enumerate (map s_anchor summits).

Definition col_index (summits : list summit) : list (nat * point) :=
  Py.enumerate (map s_colpt summits).

(** [s = sisummit.nearestNeighbor(summits[i][4], 5, distance)] *)
Definition nbr_s (summits : list summit) (distance : Q) (i : nat) : list nat :=
  nearestNeighbor (anchor_index summits) (s_anchor (summit_at summits i)) 5
    distance.

(** [c = sicol.nearestNeighbor(summits[i][5], 20, distance)] *)
Definition nbr_c (summits : list summit) (distance : Q) (i : nat) : list nat :=
  nearestNeighbor (col_index summits) (s_colpt (summit_at summits i)) 20
    distance.

(** [smatch.append([x for x in s if x not in c])] *)
Definition only_first (s c : list nat) : list nat := filter (fun x => x ∉ c) s.

(** [cmatch.append([x for x in c if x not in s])] *)
Definition only_second (s c : list nat) : list nat := filter (fun x => x ∉ s) c.

(** *** Aggregation (lines 296-322) *)

(** A feature before ranking: [Prominence], the raw [Merge] and [Cross]
    record indices (an empty list: the attribute is left unset) and the
    per-DEM [<dem> Elevation] / [<dem> Col elevation] attributes. *)
Record feature := Feature {
  f_prom : Q;
  f_merge : list nat;
  f_cross : list nat;
  f_elev : gmap string (Z * Z)
}.

(** The state of the inner loop [for i in m]. *)
Record group_acc := GroupAcc {
  ga_e : Z; ga_c : Z; ga_ss : list nat; ga_cc : list nat;
  ga_elev : gmap string (Z * Z); ga_fmap : gmap nat nat
}.

Definition member_step (summits : list summit) (sm cm : nat -> list nat)
  (pos : nat) (a : group_acc) (i : nat) : group_acc :=
  let r := summit_at summits i in
  {| ga_e := ga_e a + s_ele r;
     ga_c := ga_c a + s_col r;
     ga_ss := (ga_ss a ++ sm i)%list;
     ga_cc := (ga_cc a ++ cm i)%list;
     ga_elev := <[s_dem r := (s_ele r, s_col r)]> (ga_elev a);
     ga_fmap := <[i := pos]> (ga_fmap a) |}.

(** [f['Prominence'] = (e - c) / len(m)]: the exact quotient, before
    Python's float division and the integer field round it. *)
Definition prominence (e c : Z) (m : list nat) : Q :=
  (inject_Z (e - c) / inject_Z (Z.of_nat (length m)))%Q.

Definition aggregate_group (summits : list summit) (sm cm : nat -> list nat)
  (features : list feature) (fmap : gmap nat nat) (m : list nat)
  : feature * gmap nat nat :=
  let a := fold_left (member_step summits sm cm (length features)) m
             (GroupAcc 0 0 [] [] ∅ fmap) in
  (Feature (prominence (ga_e a) (ga_c a) m) (ga_ss a) (ga_cc a) (ga_elev a),
   ga_fmap a).

(** [for m in dm: ...]: the features in construction order and
    [fmap], mapping a record index to its feature's provisional index. *)
Definition aggregate_step (summits : list summit) (sm cm : nat -> list nat)
  (acc : list feature * gmap nat nat) (m : list nat)
  : list feature * gmap nat nat :=
  let '(features, fmap) := acc in
  let '(f, fmap') := aggregate_group summits sm cm features fmap m in
  ((features ++ [f])%list, fmap').

Definition aggregate (summits : list summit) (sm cm : nat -> list nat)
  (dm : list (list nat)) : list feature * gmap nat nat :=
  fold_left (aggregate_step summits sm cm) dm ([], ∅).

(** *** Ranking and identifiers (lines 324-335) *)

Record out_feature := OutFeature {
  o_fid : nat;
  o_ID : string;
  o_prom : Q;
  o_merge : list string;  (* space-separated identifiers; [] = unset *)
  o_cross : list string;
  o_elev : gmap string (Z * Z)
}.

(** [f'S{i+1:04}'] for the feature at 0-based position [i]. *)
Definition fmt_id (i : nat) : string := "S" ++ Py.format04 (i + 1).

(** [sorted(enumerate(features), key=Prominence, reverse=True)] *)
Definition rank_order (features : list feature) : list (nat * feature) :=
  Py.sorted_by (fun a b => Py.Qltb (f_prom (snd b)) (f_prom (snd a)))
    (Py.enumerate features).

(** [index = [x[0] for x in sorted(enumerate(index), key=lambda s: s[1])]] *)
Definition inverse_index (order : list nat) : list nat :=
  map fst (Py.sorted_by (fun a b => Nat.ltb (snd a) (snd b))
             (Py.enumerate order)).

(** [if f['Merge']: m = set(fmap[int(x)] for x in f['Merge'].split(','));
    f['Merge'] = ' '.join(f'S{index[x]+1:04}' for x in m)]; the
    [','.join] / [split(',')] / [int] round trip is the identity on the
    record indices, and the set is iterated in first-occurrence order. *)
Definition resolve (fmap : gmap nat nat) (index : list nat) (xs : list nat)
  : result (list string) :=
  match xs with
  | [] => Ok []
  | _ =>
      js ← mapM (fun x => Py.get_or KeyError (fmap !! x)) xs;
      ms ← mapM (fun j => Py.get_or IndexError (index !! j)) (remove_dups js);
      Ok (map fmt_id ms)
  end.

Definition rank (features : list feature) (fmap : gmap nat nat)
  : result (list out_feature) :=
  match features with
  | [] => Err ValueError  (* nothing to unpack into [index, features] *)
  | _ =>
      let sorted := rank_order features in
      let index := inverse_index (map fst sorted) in
      mapM (fun '(i, (_, f)) =>
              mg ← resolve fmap index (f_merge f);
              cr ← resolve fmap index (f_cross f);
              Ok (OutFeature i (fmt_id i) (f_prom f) mg cr (f_elev f)))
        (Py.enumerate sorted)
  end.

(** *** The whole algorithm *)

(** From the list of summits on: neighbour lists, grouping, aggregation
    and ranking. *)
Definition merge_summits (summits : list summit) (distance : Q)
  : result (list out_feature) :=
  let s := nbr_s summits distance in
  let c := nbr_c summits distance in
  let dm := Grouping.groups
              (Grouping.build s c (seq 0 (length summits))) in
  let '(features, fmap) :=
    aggregate summits (fun i => only_first (s i) (c i))
      (fun i => only_second (s i) (c i)) dm in
  rank features fmap.

(** [m.group(0).upper()]: the tag a layer name maps to. *)
Definition layer_tag (l : layer) : option string :=
  option_map upper (re_search dem_tags (lname l)).

Definition processAlgorithm (layers : list layer) (distance : Q)
  : result (list out_feature) :=
  ll ← configure layers;
  merge_summits (collect_summits ll) distance.

End Merge.

(** ** Reconciliation with the reference layer ([topo_match.py],
    [topo_match_m.py]) *)
Module Topo.
Import Spatial.
Local Open Scope string_scope.

(** A feature of the summit layer, with the attributes the scripts read
    or write ([None] is a NULL attribute); [t_geom] holds the first two
    vertices of the geometry. *)
Record tfeature := TFeature {
  t_fid : nat;
  t_ID : string;
  t_Name : option string;
  t_Elevation : option Z;
  t_Col : option Z;
  t_Reference : option string;
  t_Prominence : option Z;
  t_Notes : option string;
  t_geom : point * point
}.

(** A feature of the reference layer. *)
Record ref_entry := RefEntry {
  r_action : string;
  r_ref : option string;
  r_name : option string;
  r_check_ele : option string;
  r_check_col : option string;
  r_Match : option string;
  r_geom : option (point * point)
}.

Definition set_Name (f : tfeature) v : tfeature :=
  TFeature (t_fid f) (t_ID f) v (t_Elevation f) (t_Col f) (t_Reference f)
    (t_Prominence f) (t_Notes f) (t_geom f).
Definition set_Elevation (f : tfeature) v : tfeature :=
  TFeature (t_fid f) (t_ID f) (t_Name f) v (t_Col f) (t_Reference f)
    (t_Prominence f) (t_Notes f) (t_geom f).
Definition set_Col (f : tfeature) v : tfeature :=
  TFeature (t_fid f) (t_ID f) (t_Name f) (t_Elevation f) v (t_Reference f)
    (t_Prominence f) (t_Notes f) (t_geom f).
Definition set_Reference (f : tfeature) v : tfeature :=
  TFeature (t_fid f) (t_ID f) (t_Name f) (t_Elevation f) (t_Col f) v
    (t_Prominence f) (t_Notes f) (t_geom f).
Definition set_Prominence (f : tfeature) v : tfeature :=
  TFeature (t_fid f) (t_ID f) (t_Name f) (t_Elevation f) (t_Col f)
    (t_Reference f) v (t_Notes f) (t_geom f).
Definition set_Notes (f : tfeature) v : tfeature :=
  TFeature (t_fid f) (t_ID f) (t_Name f) (t_Elevation f) (t_Col f)
    (t_Reference f) (t_Prominence f) v (t_geom f).
Definition set_fid (f : tfeature) i : tfeature :=
  TFeature i (t_ID f) (t_Name f) (t_Elevation f) (t_Col f)
    (t_Reference f) (t_Prominence f) (t_Notes f) (t_geom f).

(** [g.moveVertex(rf.geometry().vertexAt(k), k); f.setGeometry(g)] for
    [k = 0] (summit) and [k = 1] (col). *)
Definition ref_vertex (rf : ref_entry) (k : nat) (dflt : point) : point :=
  match r_geom rf with
  | Some (a, c) => if Nat.eqb k 0 then a else c
  | None => dflt
  end.
Definition move_vertex0 (f : tfeature) (rf : ref_entry) : tfeature :=
  TFeature (t_fid f) (t_ID f) (t_Name f) (t_Elevation f) (t_Col f)
    (t_Reference f) (t_Prominence f) (t_Notes f)
    (ref_vertex rf 0 (fst (t_geom f)), snd (t_geom f)).
Definition move_vertex1 (f : tfeature) (rf : ref_entry) : tfeature :=
  TFeature (t_fid f) (t_ID f) (t_Name f) (t_Elevation f) (t_Col f)
    (t_Reference f) (t_Prominence f) (t_Notes f)
    (fst (t_geom f), ref_vertex rf 1 (snd (t_geom f))).

(** Python truthiness of attribute values. *)
Definition truthy_str (o : option string) : bool :=
  match o with Some s => negb (String.eqb s "") | None => false end.
Definition truthy_Z (o : option Z) : bool :=
  match o with Some z => negb (Z.eqb z 0) | None => false end.

Definition is_digit (a : ascii) : bool :=
  Nat.leb 48 (nat_of_ascii a) && Nat.leb (nat_of_ascii a) 57.

(** [str.isdecimal()] on ASCII text. *)
Definition isdecimal (s : string) : bool :=
  negb (String.eqb s "") && forallb is_digit (list_ascii_of_string s).

(** [int(s)] for a decimal string. *)
Definition parse_int (s : string) : Z :=
  fold_left (fun acc a => 10 * acc + Z.of_nat (nat_of_ascii a - 48))%Z
    (list_ascii_of_string s) 0%Z.

(** [needle in hay] for strings. *)
Fixpoint contains (needle hay : string) : bool :=
  String.prefix needle hay ||
  match hay with
  | EmptyString => false
  | String _ hay' => contains needle hay'
  end.

(** [if f['Elevation'] and f['Col elevation']:
       f['Prominence'] = f['Elevation'] - f['Col elevation']] *)
Definition update_prominence (f : tfeature) : tfeature :=
  match t_Elevation f, t_Col f with
  | Some e, Some c =>
      if truthy_Z (Some e) && truthy_Z (Some c)
      then set_Prominence f (Some (e - c)%Z) else f
  | _, _ => f
  end.

(** [if notes: f['Notes'] = '; '.join(notes)] *)
Definition write_notes (f : tfeature) (notes : list string) : tfeature :=
  match notes with
  | [] => f
  | _ => set_Notes f (Some (String.concat "; " notes))
  end.

(** *** Key mode ([topo_match_m.py]) *)

(** [refs = dict((r['Match'], r) for r in reference.getFeatures()
    if r['Match'])]: later entries replace earlier ones. *)
Definition build_refs (reference : list ref_entry) : gmap string ref_entry :=
  fold_left (fun d r => match r_Match r with
                        | Some k => if truthy_str (Some k) then <[k := r]> d else d
                        | None => d
                        end) reference ∅.

(** Lines 211-216: [Reference] and the initial notes. *)
Definition key_reference (f : tfeature) (rf : ref_entry)
  : tfeature * list string :=
  if contains "move" (r_action rf) then (f, [])
  else (set_Reference f (r_ref rf),
        if String.eqb (r_action rf) "ok" || String.eqb (r_action rf) "move"
        then [] else [r_action rf]).

(** Lines 219-226: elevation; the vertex moves even for a note. *)
Definition key_elevation (f : tfeature) (rf : ref_entry) (notes : list string)
  : tfeature * list string :=
  if truthy_Z (t_Elevation f) then (f, notes) else
  match r_check_ele rf with
  | Some s =>
      if truthy_str (Some s) then
        if isdecimal s
        then (move_vertex0 (set_Elevation f (Some (parse_int s))) rf, notes)
        else (move_vertex0 f rf, (notes ++ [String.append "ele:" s])%list)
      else (f, notes)
  | None => (f, notes)
  end.

(** Lines 228-235: col elevation. *)
Definition key_col (f : tfeature) (rf : ref_entry) (notes : list string)
  : tfeature * list string :=
  if truthy_Z (t_Col f) then (f, notes) else
  match r_check_col rf with
  | Some s =>
      if truthy_str (Some s) then
        if isdecimal s
        then (move_vertex1 (set_Col f (Some (parse_int s))) rf, notes)
        else (move_vertex1 f rf, (notes ++ [String.append "col:" s])%list)
      else (f, notes)
  | None => (f, notes)
  end.

(** The body of the loop over the source features (lines 207-241). *)
Definition key_update (refs : gmap string ref_entry) (f : tfeature)
  : tfeature :=
  let f :=
    match refs !! t_ID f with
    | None => f
    | Some rf =>
        let '(f, notes) := key_reference f rf in
        let f := if truthy_str (t_Name f) then f else set_Name f (r_name rf) in
        let '(f, notes) := key_elevation f rf notes in
        let '(f, notes) := key_col f rf notes in
        write_notes f notes
    end in
  update_prominence f.

(** The sort key [(0, f['Reference']) if f['Reference'] else
    (1, -f['Prominence'])]; negating a NULL raises [TypeError]. *)
Definition sort_key (f : tfeature) : result (string + Z) :=
  match t_Reference f with
  | Some r => if truthy_str (Some r) then Ok (inl r) else
              match t_Prominence f with
              | Some p => Ok (inr (- p)%Z)
              | None => Err TypeError
              end
  | None => match t_Prominence f with
            | Some p => Ok (inr (- p)%Z)
            | None => Err TypeError
            end
  end.

(** Tuple comparison of the keys. *)
Definition key_lt (a b : string + Z) : bool :=
  match a, b with
  | inl x, inl y => String.ltb x y
  | inl _, inr _ => true
  | inr _, inl _ => false
  | inr x, inr y => Z.ltb x y
  end.

Definition key_run (source : list tfeature) (reference : list ref_entry)
  : result (list tfeature) :=
  let refs := build_refs reference in
  let features := map (key_update refs) source in
  keys ← mapM sort_key features;
  let sorted := Py.sorted_by (fun a b => key_lt (fst a) (fst b))
                  (zip keys features) in
  Ok (imap (fun i kf => set_fid (snd kf) i) sorted).

(** *** Spatial mode ([topo_match.py]) *)

(** The indexed reference entries: those with a geometry and not marked
    for delete (lines 64-84). *)
Definition ref_list (reference : list ref_entry) : list ref_entry :=
  List.filter (fun r => match r_geom r with
                        | Some _ => negb (String.eqb (r_action r) "delete")
                        | None => false
                        end) reference.

Definition ref_anchor_index (rl : list ref_entry) : list (nat * point) :=
  Py.enumerate (map (fun r => ref_vertex r 0 (Pt 0 0)) rl).
Definition ref_col_index (rl : list ref_entry) : list (nat * point) :=
  Py.enumerate (map (fun r => ref_vertex r 1 (Pt 0 0)) rl).

(** The variables live across the iterations of the loop over the
    source features: [matched], [candidate] and the local [notes], which
    is unbound ([None]) until a first assignment. *)
Record sp_state := SpState {
  sp_matched : list nat;
  sp_candidate : gmap nat string;
  sp_notes : option (list string)
}.

Definition sp_init : sp_state := SpState [] ∅ None.

(** Lines 102-108: [Reference] and the initial notes. *)
Definition sp_reference (f : tfeature) (rf : ref_entry) (i : nat)
  (matched : list nat) : tfeature * list nat * list string :=
  if contains "switch" (r_action rf) then (f, matched, [])
  else (set_Reference f (r_ref rf), (matched ++ [i])%list,
        if String.eqb (r_action rf) "ok" then [] else [r_action rf]).

(** Lines 111-118: elevation; the vertex moves only with the value. *)
Definition sp_elevation (f : tfeature) (rf : ref_entry) (notes : list string)
  : tfeature * list string :=
  if truthy_Z (t_Elevation f) then (f, notes) else
  match r_check_ele rf with
  | Some s =>
      if truthy_str (Some s) then
        if isdecimal s
        then (move_vertex0 (set_Elevation f (Some (parse_int s))) rf, notes)
        else (f, (notes ++ [String.append "ele:" s])%list)
      else (f, notes)
  | None => (f, notes)
  end.

(** Lines 119-126: col elevation. *)
Definition sp_col (f : tfeature) (rf : ref_entry) (notes : list string)
  : tfeature * list string :=
  if truthy_Z (t_Col f) then (f, notes) else
  match r_check_col rf with
  | Some s =>
      if truthy_str (Some s) then
        if isdecimal s
        then (move_vertex1 (set_Col f (Some (parse_int s))) rf, notes)
        else (f, (notes ++ [String.append "col:" s])%list)
      else (f, notes)
  | None => (f, notes)
  end.

(** The body of the loop for one source feature whose summit query
    returned [i :: _] and whose col query returned [j] (lines 96-133). *)
Definition sp_match (rl : list ref_entry) (st : sp_state) (f : tfeature)
  (i : nat) (j : list nat) : result (sp_state * tfeature) :=
  '(st, f) ←
    (if decide (i ∈ j) then
       rf ← Py.get_or IndexError (rl !! i);
       let '(f, matched, notes) := sp_reference f rf i (sp_matched st) in
       let f := if truthy_str (t_Name f) then f else set_Name f (r_name rf) in
       let '(f, notes) := sp_elevation f rf notes in
       let '(f, notes) := sp_col f rf notes in
       Ok (SpState matched (sp_candidate st) (Some notes), f)
     else
       Ok (SpState (sp_matched st) (<[i := t_ID f]> (sp_candidate st))
             (sp_notes st), f));
  let f := update_prominence f in
  notes ← Py.get_or UnboundLocalError (sp_notes st);
  Ok (st, write_notes f notes).

(** Summit tolerance [0.005] and col tolerance [0.01]. *)
Definition tol_summit : Q := 5 # 1000.
Definition tol_col : Q := 1 # 100.

Definition sp_step (rl : list ref_entry) (st : sp_state) (f : tfeature)
  : result (sp_state * tfeature) :=
  match nearestNeighbor (ref_anchor_index rl) (fst (t_geom f)) 1 tol_summit with
  | [] => Ok (st, f)
  | i :: _ =>
      sp_match rl st f i
        (nearestNeighbor (ref_col_index rl) (snd (t_geom f)) 1 tol_col)
  end.

Fixpoint sp_loop (rl : list ref_entry) (st : sp_state) (source : list tfeature)
  : result (sp_state * list tfeature) :=
  match source with
  | [] => Ok (st, [])
  | f :: fs =>
      '(st, f) ← sp_step rl st f;
      '(st, out) ← sp_loop rl st fs;
      Ok (st, f :: out)
  end.

(** The output features and the remaining reference entries with their
    [Match] candidate (lines 137-143). *)
Definition spatial_run (source : list tfeature) (reference : list ref_entry)
  : result (list tfeature * list (ref_entry * option string)) :=
  let rl := ref_list reference in
  '(st, out) ← sp_loop rl sp_init source;
  Ok (out, omap (fun '(i, r) =>
                   if decide (i ∈ sp_matched st) then None
                   else Some (r, sp_candidate st !! i)) (Py.enumerate rl)).

End Topo.

(** * Sample inputs *)
Module Examples.
Import Spatial Merge.
Local Open Scope string_scope.

Definition P (x y : Z) : point := Pt (inject_Z x) (inject_Z y).

(** Three isolated summits of prominence 120, 450 and 300, each its own
    group. *)
Definition peaks3 : list summit :=
  [Summit "SRTM" 1120 1000 (P 0 0) (P 0 1);
   Summit "SRTM" 1450 1000 (P 100 0) (P 100 1);
   Summit "SRTM" 1300 1000 (P 200 0) (P 200 1)].

Definition features3 : list feature * gmap nat nat :=
  aggregate peaks3 (fun _ => []) (fun _ => []) [[0]; [1]; [2]].

(** A feature with anchor [(ax, ay)] and col [(cx, cy)]. *)
Definition feat (ax ay cx cy e c : Z) : in_feature :=
  InFeature (Some (P ax ay, P cx cy)) e c.

(** Three layers seeing one summit, anchors 2 apart and cols 4 apart.
    With distance 5, record 2's anchor is an anchor neighbour of record
    0 but its col is too far from record 0's col: an anchor-only link
    from 0 to 2, while all three records are chained into one group
    through record 1. *)
Definition layers3 : list layer :=
  [Layer "SRTM peaks" [feat 0 0 0 10 1000 800];
   Layer "ASTER peaks" [feat 2 0 4 10 1010 790];
   Layer "alos peaks" [feat 4 0 8 10 990 810]].

(** Spatial mode: entry [rA] (action check) is where summit [sA] is;
    [sB]'s summit is at entry [rB] but its col is far from [rB]'s. *)
Definition rA : Topo.ref_entry :=
  Topo.RefEntry "check" (Some "YO/BV-001") (Some "Peak A") (Some "1500")
    (Some "abc") None (Some (P 0 0, P 0 1)).
Definition rB : Topo.ref_entry :=
  Topo.RefEntry "ok" (Some "YO/BV-002") (Some "Peak B") None None None
    (Some (P 10 0, P 10 1)).
Definition sA : Topo.tfeature :=
  Topo.TFeature 0 "S0001" None None (Some 1200%Z) None None None (P 0 0, P 0 1).
Definition sB : Topo.tfeature :=
  Topo.TFeature 1 "S0002" None (Some 900%Z) (Some 700%Z) None None (Some "x")
    (P 10 0, P 20 20).

(** Key mode: a record that already has a reference and notes, and
    entries matching it with various actions. *)
Definition kf : Topo.tfeature :=
  Topo.TFeature 0 "S0001" (Some "Old name") None (Some 800%Z) (Some "R1")
    (Some 200%Z) (Some "old") (P 0 0, P 0 1).
Definition kr (action : string) : Topo.ref_entry :=
  Topo.RefEntry action (Some "R2") (Some "New name") (Some "abc") (Some "790")
    (Some "S0001") (Some (P 1 0, P 1 1)).

(** Key mode: three records, one of them referenced. *)
Definition k3 : list Topo.tfeature :=
  [Topo.TFeature 0 "S0001" (Some "A") (Some 1000%Z) (Some 900%Z) None
     (Some 100%Z) None (P 0 0, P 0 1);
   Topo.TFeature 1 "S0002" (Some "B") (Some 1000%Z) (Some 700%Z) None
     (Some 300%Z) None (P 5 0, P 5 1);
   Topo.TFeature 2 "S0003" (Some "C") (Some 1000%Z) (Some 800%Z) None
     (Some 200%Z) None (P 9 0, P 9 1)].
Definition k3refs : list Topo.ref_entry :=
  [Topo.RefEntry "ok" (Some "YO/BV-007") None None None (Some "S0003") None].

(** Spatial mode: an entry marked move at a record's summit and col. *)
Definition rM : Topo.ref_entry :=
  Topo.RefEntry "move" (Some "R9") None None None None (Some (P 10 0, P 10 1)).
Definition fM : Topo.tfeature :=
  Topo.TFeature 0 "S0001" None None None None None None (P 10 0, P 10 1).
Definition spM : Topo.sp_state * Topo.tfeature :=
  match Topo.sp_match [rM] Topo.sp_init fM 0 [0] with
  | Ok p => p
  | Err _ => (Topo.sp_init, fM)
  end.

Definition outk3 : list Topo.tfeature :=
  match Topo.key_run k3 k3refs with Ok o => o | Err _ => [] end.

(** Their ranked output. *)
Definition out3 : list out_feature :=
  match rank (fst features3) (snd features3) with Ok o => o | Err _ => [] end.

Definition summits3 : list summit :=
  match configure layers3 with Ok ll => collect_summits ll | Err _ => [] end.

Definition out_layers3 : list out_feature :=
  match processAlgorithm layers3 (inject_Z 5) with Ok o => o | Err _ => [] end.

(** Six records at one point. *)
Definition six_peaks : list summit :=
  List.repeat (Summit "SRTM" 1000 900 (P 0 0) (P 0 1)) 6.

(** A layer whose one feature has no geometry, and the layer list it
    configures. *)
Definition nogeom_srtm : list layer := [Layer "SRTM peaks" [InFeature None 100 50]].

Definition ll_nogeom_srtm : layer_list :=
  match configure nogeom_srtm with Ok ll => ll | Err _ => [] end.

(** One group of three records, two from SRTM and one from ASTER, of
    prominences 120, 131 and 110. *)
Definition peaks_grp : list summit :=
  [Summit "SRTM" 1120 1000 (P 0 0) (P 0 1);
   Summit "SRTM" 1131 1000 (P 1 0) (P 1 1);
   Summit "ASTER" 1100 990 (P 2 0) (P 2 1)].

Definition features_grp : list feature * gmap nat nat :=
  aggregate peaks_grp (fun _ => []) (fun _ => []) [[0; 1; 2]].

Definition fg : feature :=
  match features_grp.1 with f :: _ => f | [] => Feature 0 [] [] ∅ end.

(** The three isolated summits of [peaks3], read from one layer, and
    their merge with distance 5. *)
Definition layer_peaks3 : list layer :=
  [Layer "SRTM peaks" [feat 0 0 0 1 1120 1000; feat 100 0 100 1 1450 1000;
                       feat 200 0 200 1 1300 1000]].

Definition out_peaks3 : list out_feature :=
  match processAlgorithm layer_peaks3 (inject_Z 5) with Ok o => o | Err _ => [] end.

Definition ll3 : layer_list :=
  match configure layers3 with Ok ll => ll | Err _ => [] end.

(** Spatial mode on records [sA], [sB] against entries [rA], [rB]. *)
Definition spAB : list Topo.tfeature * list (Topo.ref_entry * option string) :=
  match Topo.spatial_run [sA; sB] [rA; rB] with Ok p => p | Err _ => ([], []) end.

(** Spatial mode: a record far from every entry, and the run on
    [sA], [sB], [sC]. *)
Definition sC : Topo.tfeature :=
  Topo.TFeature 2 "S0003" (Some "C") None None None None None (P 50 0, P 50 1).
Definition spABC : list Topo.tfeature * list (Topo.ref_entry * option string) :=
  match Topo.spatial_run [sA; sB; sC] [rA; rB] with Ok p => p | Err _ => ([], []) end.

(** Spatial mode: entries it does not use, one marked delete and one
    without a geometry. *)
Definition rDel : Topo.ref_entry :=
  Topo.RefEntry "delete" (Some "R5") None None None None (Some (P 0 0, P 0 1)).
Definition rNoGeom : Topo.ref_entry :=
  Topo.RefEntry "ok" (Some "R6") None None None None None.

End Examples.

(** * Proofs *)

(** ** Grouping *)
Module GroupingFacts.
Import Grouping.


Lemma elem_of_canon x m : x ∈ canon m ↔ x ∈ m.
Proof.
  unfold canon. rewrite (merge_sort_Permutation Nat.le (remove_dups m)).
  apply elem_of_remove_dups.
Qed.

Lemma lookup_assign t m dmatch x :
  assign t m dmatch !! x = if decide (x ∈ m) then Some t else dmatch !! x.
Proof.
  revert dmatch. induction m as [|y m IH]; intros dmatch; simpl.
  - destruct (decide (x ∈ [])) as [Hx|]; [set_solver|done].
  - rewrite IH. destruct (decide (x ∈ m)) as [Hm|Hm];
      destruct (decide (x ∈ y :: m)) as [Hym|Hym];
      try reflexivity; try set_solver.
    + assert (x = y) as -> by set_solver. by rewrite lookup_insert_eq.
    + rewrite lookup_insert_ne; [done|set_solver].
Qed.

Lemma same_group_sym dmatch x y :
  same_group dmatch x y → same_group dmatch y x.
Proof. intros (t & ? & ?). by exists t. Qed.

Lemma same_group_trans dmatch x y z :
  same_group dmatch x y → same_group dmatch y z → same_group dmatch x z.
Proof. intros (t & Hx & Hy) (t' & Hy' & Hz). exists t. split; congruence. Qed.

Lemma elem_of_expand dmatch m0 y :
  chain_inv dmatch →
  y ∈ expand dmatch m0 ↔ y ∈ m0 ∨ ∃ z, z ∈ m0 ∧ same_group dmatch z y.
Proof.
  intros Hinv. unfold expand. rewrite elem_of_app, list_elem_of_bind.
  split.
  - intros [Hy|(z & Hy & Hz)]; [by left|right].
    exists z. split; [done|].
    destruct (dmatch !! z) as [t|] eqn:Ht; [|set_solver].
    exists t. split; [done|]. by apply (Hinv z t Ht).
  - intros [Hy|(z & Hz & t & Ht & Hyt)]; [by left|right].
    exists z. rewrite Ht. split; [|done].
    by apply (Hinv y t Hyt).
Qed.

Lemma lookup_step dmatch m0 x :
  step dmatch m0 !! x =
    if decide (x ∈ expand dmatch m0) then Some (canon (expand dmatch m0))
    else dmatch !! x.
Proof. unfold step. apply lookup_assign. Qed.

(** The expanded match set is closed under the groups found so far. *)
Lemma expand_closed dmatch m0 x y :
  chain_inv dmatch → x ∈ expand dmatch m0 → same_group dmatch x y →
  y ∈ expand dmatch m0.
Proof.
  intros Hinv Hx Hxy. apply elem_of_expand; [done|].
  apply elem_of_expand in Hx; [|done].
  destruct Hx as [Hx|(z & Hz & Hzx)]; right.
  - by exists x.
  - exists z. split; [done|]. by apply same_group_trans with x.
Qed.

Lemma step_inv dmatch m0 : chain_inv dmatch → chain_inv (step dmatch m0).
Proof.
  intros Hinv x t. rewrite !lookup_step.
  set (m := expand dmatch m0).
  destruct (decide (x ∈ m)) as [Hx|Hx].
  - intros [= <-]. split; [by apply elem_of_canon|].
    intros y Hy. rewrite elem_of_canon in Hy.
    rewrite lookup_step. fold m. destruct (decide (y ∈ m)) as [|Hn]; [done|exfalso; exact (Hn Hy)].
  - intros Ht. destruct (Hinv x t Ht) as [Hxt Hall]. split; [done|].
    intros y Hy. rewrite lookup_step. fold m.
    destruct (decide (y ∈ m)) as [Hym|]; [|by apply Hall].
    exfalso. apply Hx. apply expand_closed with y; [done|done|].
    exists t. split; [by apply Hall|done].
Qed.

Lemma same_group_step dmatch m0 x y :
  chain_inv dmatch →
  same_group (step dmatch m0) x y ↔
    (x ∈ expand dmatch m0 ∧ y ∈ expand dmatch m0) ∨
    ((x ∉ expand dmatch m0) ∧ same_group dmatch x y).
Proof.
  intros Hinv. unfold same_group. rewrite !lookup_step.
  set (m := expand dmatch m0).
  destruct (decide (x ∈ m)) as [Hx|Hx], (decide (y ∈ m)) as [Hy|Hy].
  - split; [by left|]. intros _. by eexists.
  - split; [|intros [[_ ?]|[? _]]; done].
    intros (t & [= <-] & Hyt). exfalso. apply Hy.
    apply elem_of_canon. by apply (Hinv y).
  - split; [|intros [[? _]|[_ (t & Hxt & Hyt)]]; [done|]].
    + intros (t & Hxt & [= <-]). exfalso. apply Hx.
      apply elem_of_canon. by apply (Hinv x).
    + exfalso. apply Hx. apply expand_closed with y; [done|done|].
      exists t. split; done.
  - split.
    + intros ?. by right.
    + intros [[? _]|[_ ?]]; done.
Qed.

Section Closure.
Variables (s c : nat -> list nat).

Lemma hyper_sym P x y : hyper s c P x y → hyper s c P y x.
Proof. intros (i & ? & ? & ?). by exists i. Qed.

Lemma clos_trans_sym_of {A} (R : relation A) :
  (∀ x y, R x y → R y x) →
  ∀ x y, clos_trans A R x y → clos_trans A R y x.
Proof.
  intros Hs x y H. induction H as [x y H|x y z _ IH1 _ IH2].
  - by apply t_step, Hs.
  - by apply t_trans with y.
Qed.

Lemma clos_trans_incl_of {A} (R R' : relation A) :
  (∀ x y, R x y → R' x y) →
  ∀ x y, clos_trans A R x y → clos_trans A R' x y.
Proof.
  intros Hi x y H. induction H as [x y H|x y z _ IH1 _ IH2].
  - by apply t_step, Hi.
  - by apply t_trans with y.
Qed.

Lemma step_closure dmatch Q i :
  chain_inv dmatch →
  (∀ x y, same_group dmatch x y ↔ clos_trans nat (hyper s c Q) x y) →
  ∀ x y, same_group (step dmatch (mutual (s i) (c i))) x y ↔
         clos_trans nat (hyper s c (Q ++ [i])) x y.
Proof.
  intros Hinv HQ.
  set (M := mutual (s i) (c i)).
  set (CT' := clos_trans nat (hyper s c (Q ++ [i]))).
  assert (Hmono : ∀ x y, same_group dmatch x y → CT' x y).
  { intros x y Hxy. apply HQ in Hxy.
    apply (clos_trans_incl_of (hyper s c Q)); [|done].
    intros a b (j & Hj & Ha & Hb). exists j. split; [set_solver|done]. }
  assert (Hi : ∀ a b, a ∈ M → b ∈ M → CT' a b).
  { intros a b Ha Hb. apply t_step. exists i. split; [set_solver|done]. }
  assert (Hsym : ∀ a b, CT' a b → CT' b a).
  { apply clos_trans_sym_of, hyper_sym. }
  assert (Hroot : ∀ a, a ∈ expand dmatch M → ∃ z, z ∈ M ∧ CT' z a).
  { intros a Ha. apply elem_of_expand in Ha; [|done].
    destruct Ha as [Ha|(z & Hz & Hza)].
    - exists a. split; [done|by apply Hi].
    - exists z. split; [done|by apply Hmono]. }
  intros x y. rewrite same_group_step by done. split.
  - intros [[Hx Hy]|[_ Hxy]]; [|by apply Hmono].
    destruct (Hroot x Hx) as (zx & Hzx & Hx').
    destruct (Hroot y Hy) as (zy & Hzy & Hy').
    apply t_trans with zx; [by apply Hsym|].
    apply t_trans with zy; [by apply Hi|done].
  - intros H. induction H as [x y (j & Hj & Hx & Hy)|x y z _ IH1 _ IH2].
    + apply elem_of_app in Hj as [Hj|Hj].
      * assert (Hxy : same_group dmatch x y).
        { apply HQ, t_step. by exists j. }
        destruct (decide (x ∈ expand dmatch M)) as [Hxm|Hxm].
        -- left. split; [done|]. by apply expand_closed with x.
        -- by right.
      * apply list_elem_of_singleton in Hj as ->. left.
        split; apply elem_of_expand; auto.
    + destruct IH1 as [[Hx Hy]|[Hx Hxy]], IH2 as [[Hy' Hz]|[Hy' Hyz]].
      * by left.
      * done.
      * exfalso. apply Hx. apply expand_closed with y; [done|done|].
        by apply same_group_sym.
      * right. split; [done|]. by apply same_group_trans with y.
Qed.

Lemma build_from_spec P dmatch Q :
  chain_inv dmatch →
  (∀ x y, same_group dmatch x y ↔ clos_trans nat (hyper s c Q) x y) →
  let dm := fold_left (fun dm i => step dm (mutual (s i) (c i))) P dmatch in
  chain_inv dm ∧
  ∀ x y, same_group dm x y ↔ clos_trans nat (hyper s c (Q ++ P)) x y.
Proof.
  revert dmatch Q. induction P as [|i P IH]; intros dmatch Q Hinv HQ; simpl.
  - rewrite app_nil_r. by split.
  - rewrite cons_middle, app_assoc. apply IH.
    + by apply step_inv.
    + by apply step_closure.
Qed.

Lemma build_spec ord :
  chain_inv (build s c ord) ∧
  ∀ x y, same_group (build s c ord) x y ↔ clos_trans nat (hyper s c ord) x y.
Proof.
  apply (build_from_spec ord ∅ []).
  - intros x t. by rewrite lookup_empty.
  - intros x y. split.
    + intros (t & Ht & _). by rewrite lookup_empty in Ht.
    + intros H. exfalso. induction H as [x y (j & Hj & _)|]; [set_solver|done].
Qed.
End Closure.
End GroupingFacts.

(** ** Grouping: the partition theorem *)
Module GroupingTheorems.
Import Grouping GroupingFacts.

Lemma elem_of_mutual x s c : x ∈ mutual s c ↔ x ∈ s ∧ x ∈ c.
Proof. unfold mutual. rewrite list_elem_of_filter. tauto. Qed.

Lemma elem_of_groups dmatch t :
  t ∈ groups dmatch ↔ ∃ k, dmatch !! k = Some t.
Proof.
  unfold groups. rewrite elem_of_remove_dups, list_elem_of_fmap. split.
  - intros ([k t'] & -> & Hk). apply elem_of_map_to_list in Hk. by exists k.
  - intros (k & Hk). exists (k, t). split; [done|].
    by apply elem_of_map_to_list.
Qed.

Lemma hyper_perm s c ord ord' x y :
  ord ≡ₚ ord' → hyper s c ord x y → hyper s c ord' x y.
Proof. intros Hp (i & Hi & Hx & Hy). exists i. by rewrite <-Hp. Qed.

Lemma clos_hyper_perm s c ord ord' x y :
  ord ≡ₚ ord' →
  clos_trans nat (hyper s c ord) x y ↔ clos_trans nat (hyper s c ord') x y.
Proof.
  intros Hp. split; apply clos_trans_incl_of; intros a b;
    apply hyper_perm.
  - done.
  - by symmetry.
Qed.

Lemma clos_hyper_match n s c ord x y :
  (∀ i, i < n → i ∈ s i ∧ i ∈ c i) → ord ≡ₚ seq 0 n →
  x < n →
  clos_trans nat (hyper s c ord) x y ↔
  clos_refl_sym_trans nat (match_rel n s c) x y.
Proof.
  intros Hself Hord Hx. split.
  - intros H. clear Hx. induction H as [a b (i & Hi & Ha & Hb)|a b d _ IH1 _ IH2].
    + rewrite Hord, elem_of_seq in Hi.
      apply rst_trans with i.
      * apply rst_sym, rst_step. split; [lia|done].
      * apply rst_step. split; [lia|done].
    + by apply rst_trans with b.
  - intros H.
    assert (Hgen : ∀ a b, clos_refl_sym_trans nat (match_rel n s c) a b →
              a = b ∨ clos_trans nat (hyper s c ord) a b).
    { clear x y Hx H. intros a b H.
      induction H as [a b (Hi & Hb)| a | a b _ IH | a b d _ IH1 _ IH2].
      - right. apply t_step. exists a. rewrite Hord, elem_of_seq.
        split; [lia|]. split; [apply elem_of_mutual, Hself; lia|done].
      - by left.
      - destruct IH as [->|IH]; [by left|right].
        by apply clos_trans_sym_of; [apply hyper_sym|].
      - destruct IH1 as [->|IH1], IH2 as [->|IH2]; [by left|by right|by right|].
        right. by apply t_trans with b. }
    apply (Hgen x y) in H. destruct H as [<-|]; [|done].
    apply t_step. exists x. rewrite Hord, elem_of_seq.
    split; [lia|]. assert (x ∈ mutual (s x) (c x)) by
      (apply elem_of_mutual, Hself; lia). done.
Qed.

(** Claim C1. For every batch of [n] records whose neighbour queries
    return the queried record itself (each record lies at distance 0
    from its own anchor and col), the chaining loop run in any processing
    order [ord] (a permutation of [range(n)]; the code uses [range(n)])
    yields groups that partition the records: every record is in exactly
    one group of [set(dmatch.values())], a record that matched nothing
    forming its own group; two records share a group iff they are linked
    by the reflexive-symmetric-transitive closure of the mutual match
    relation (the partition a union-find produces); and the partition is
    the same for every processing order. *)
Theorem grouping_partition (n : nat) (s c : nat -> list nat)
  (Hself : ∀ i, i < n → i ∈ s i ∧ i ∈ c i)
  (ord : list nat) (Hord : ord ≡ₚ seq 0 n) :
  (∀ x, x < n → ∃ t, t ∈ groups (build s c ord) ∧ x ∈ t ∧
     ∀ t', t' ∈ groups (build s c ord) → x ∈ t' → t' = t) ∧
  (∀ x y, x < n → y < n →
     same_group (build s c ord) x y ↔
     clos_refl_sym_trans nat (match_rel n s c) x y) ∧
  (∀ x y, same_group (build s c ord) x y ↔
          same_group (build s c (seq 0 n)) x y).
Proof.
  destruct (build_spec s c ord) as [Hinv Heq].
  destruct (build_spec s c (seq 0 n)) as [_ Heq0].
  split; [|split].
  - intros x Hx.
    assert (Hxx : same_group (build s c ord) x x).
    { apply Heq, t_step. exists x. rewrite Hord, elem_of_seq.
      split; [lia|]. assert (x ∈ mutual (s x) (c x)) by
        (apply elem_of_mutual, Hself; lia). done. }
    destruct Hxx as (t & Ht & _). exists t. split; [|split].
    + apply elem_of_groups. by exists x.
    + by apply (Hinv x t Ht).
    + intros t' Ht' Hxt'. apply elem_of_groups in Ht' as (k & Hk).
      destruct (Hinv k t' Hk) as [_ Hall]. rewrite (Hall x Hxt') in Ht.
      by injection Ht.
  - intros x y Hx _. rewrite Heq. by apply clos_hyper_match.
  - intros x y. rewrite Heq, Heq0. by apply clos_hyper_perm.
Qed.
End GroupingTheorems.

(** ** Python built-ins: sorting, enumerate, mapM *)
Module PyFacts.
Import Py.

Section Sorting.
Context {A : Type} (before : A -> A -> bool).

Lemma insert_before_perm x l : insert_before before x l ≡ₚ x :: l.
Proof.
  induction l as [|y l IH]; simpl; [done|].
  destruct (before x y); [done|].
  rewrite IH. constructor.
Qed.

Lemma sorted_by_perm_aux acc l :
  fold_left (fun acc x => insert_before before x acc) l acc ≡ₚ acc ++ l.
Proof.
  revert acc. induction l as [|x l IH]; intros acc; simpl.
  - by rewrite app_nil_r.
  - rewrite IH, insert_before_perm. by rewrite <-Permutation_middle.
Qed.

Lemma sorted_by_perm l : sorted_by before l ≡ₚ l.
Proof. apply sorted_by_perm_aux. Qed.

Lemma elem_of_insert_before z x l :
  z ∈ insert_before before x l ↔ z = x ∨ z ∈ l.
Proof. rewrite insert_before_perm. set_solver. Qed.

Hypothesis before_asym : ∀ x y, before x y = true → before y x = false.
Hypothesis before_trans : ∀ x y z,
  before x y = true → before y z = true → before x z = true.


Lemma insert_before_sorted x l :
  StronglySorted (not_after before) l → StronglySorted (not_after before) (insert_before before x l).
Proof.
  induction l as [|y l IH]; intros Hs; simpl.
  - repeat constructor.
  - apply StronglySorted_inv in Hs as [Hl Hy].
    destruct (before x y) eqn:Hxy.
    + constructor; [by constructor|].
      constructor; [by apply before_asym|].
      rewrite Forall_forall in Hy |- *. intros z Hz.
      unfold not_after. destruct (before z x) eqn:Hzx; [|done].
      specialize (Hy z Hz). unfold not_after in Hy.
      by rewrite (before_trans z x y Hzx Hxy) in Hy.
    + constructor; [by apply IH|].
      rewrite Forall_forall in Hy |- *. intros z Hz.
      apply elem_of_insert_before in Hz as [->|Hz]; [done|by apply Hy].
Qed.

Lemma sorted_by_sorted l : StronglySorted (not_after before) (sorted_by before l).
Proof.
  unfold sorted_by.
  assert (Hgen : ∀ acc, StronglySorted (not_after before) acc →
    StronglySorted (not_after before)
      (fold_left (fun acc x => insert_before before x acc) l acc)).
  { induction l as [|x l IH]; intros acc Hacc; simpl; [done|].
    by apply IH, insert_before_sorted. }
  apply Hgen. constructor.
Qed.

(** Stability, for a strict weak order: equal keys keep the order of a
    position [idx] that increases along the input. *)
Hypothesis before_negtrans : ∀ x y z,
  before x y = true → before x z = true ∨ before z y = true.
Variable idx : A -> nat.

Lemma insert_before_stable x l :
  StronglySorted (stable_after before idx) l → Forall (fun z => idx z < idx x) l →
  StronglySorted (stable_after before idx) (insert_before before x l).
Proof.
  induction l as [|y l IH]; intros Hs Hlt; simpl.
  - repeat constructor.
  - apply StronglySorted_inv in Hs as [Hl Hy].
    apply Forall_cons in Hlt as [Hyx Hlt].
    destruct (before x y) eqn:Hxy.
    + constructor; [by constructor|].
      assert (Hall : ∀ z, z ∈ y :: l → before x z = true).
      { intros z Hz. apply elem_of_cons in Hz as [->|Hz]; [done|].
        rewrite Forall_forall in Hy. destruct (Hy z Hz) as [Hzy _].
        destruct (before_negtrans x y z Hxy) as [?|Hzy']; [done|].
        by rewrite Hzy' in Hzy. }
      rewrite Forall_forall. intros z Hz. split.
      * by apply before_asym, Hall.
      * intros Hxz. by rewrite (Hall z Hz) in Hxz.
    + constructor; [by apply IH|].
      rewrite Forall_forall in Hy |- *. intros z Hz.
      apply elem_of_insert_before in Hz as [->|Hz]; [|by apply Hy].
      split; [done|]. intros _. done.
Qed.

Lemma sorted_by_stable l :
  StronglySorted (fun x y => idx x < idx y) l →
  StronglySorted (stable_after before idx) (sorted_by before l).
Proof.
  unfold sorted_by.
  assert (Hgen : ∀ acc, StronglySorted (stable_after before idx) acc →
    StronglySorted (fun x y => idx x < idx y) l →
    (∀ z w, z ∈ acc → w ∈ l → idx z < idx w) →
    StronglySorted (stable_after before idx)
      (fold_left (fun acc x => insert_before before x acc) l acc)).
  { induction l as [|x l IH]; intros acc Hacc Hl Hlt; simpl; [done|].
    apply StronglySorted_inv in Hl as [Hl Hx].
    apply IH; [| done |].
    - apply insert_before_stable; [done|].
      apply Forall_forall. intros z Hz. apply Hlt; [done|set_solver].
    - intros z w Hz Hw. apply elem_of_insert_before in Hz as [->|Hz].
      + rewrite Forall_forall in Hx. by apply Hx.
      + apply Hlt; [done|set_solver]. }
  intros Hl. apply Hgen; [constructor|done|set_solver].
Qed.
End Sorting.

Lemma StronglySorted_lookup {A} (R : A -> A -> Prop) l p q x y :
  StronglySorted R l → p < q → l !! p = Some x → l !! q = Some y → R x y.
Proof.
  intros Hs. revert p q. induction Hs as [|a l Hs IH Ha]; intros p q Hpq Hp Hq.
  - done.
  - destruct p as [|p], q as [|q]; simpl in *; try lia.
    + injection Hp as <-. rewrite Forall_forall in Ha. apply Ha.
      by apply list_elem_of_lookup_2 with q.
    + apply (IH p q); [lia|done|done].
Qed.

Lemma lookup_enumerate {A} (l : list A) p :
  enumerate l !! p = (fun x => (p, x)) <$> l !! p.
Proof.
  unfold enumerate.
  assert (Hgen : ∀ k, zip (seq k (length l)) l !! p =
                      (fun x => (k + p, x)) <$> l !! p).
  { revert p. induction l as [|x l IH]; intros p k; [done|].
    destruct p as [|p]; simpl.
    - by rewrite Nat.add_0_r.
    - rewrite IH. by rewrite Nat.add_succ_r. }
  apply Hgen.
Qed.

Lemma length_enumerate {A} (l : list A) : length (enumerate l) = length l.
Proof.
  unfold enumerate. rewrite length_zip, length_seq. lia.
Qed.

Lemma StronglySorted_of_lookup {A} (R : A -> A -> Prop) l :
  (∀ p q x y, p < q → l !! p = Some x → l !! q = Some y → R x y) →
  StronglySorted R l.
Proof.
  induction l as [|a l IH]; intros H; constructor.
  - apply IH. intros p q x y Hpq Hp Hq. apply (H (S p) (S q)); [lia|done|done].
  - apply Forall_forall. intros z Hz. apply list_elem_of_lookup in Hz as [q Hq].
    apply (H 0 (S q)); [lia|done|done].
Qed.

Lemma enumerate_sorted {A} (l : list A) :
  StronglySorted (fun x y => fst x < fst y) (enumerate l).
Proof.
  apply StronglySorted_of_lookup. intros p q [i x] [j y] Hpq Hp Hq.
  rewrite lookup_enumerate in Hp, Hq.
  destruct (l !! p), (l !! q); simplify_eq/=. done.
Qed.

Lemma mapM_Ok {A B} (f : A -> result B) l l' :
  mapM f l = Ok l' → Forall2 (fun x y => f x = Ok y) l l'.
Proof.
  revert l'. induction l as [|x l IH]; intros l' H; simpl in H.
  - injection H as <-. constructor.
  - destruct (f x) as [y|e] eqn:Hfx; [|done]. simpl in H.
    destruct (mapM f l) as [ys|e] eqn:Hm; [|done]. simpl in H.
    injection H as <-. constructor; [done|by apply IH].
Qed.

Lemma Qltb_true x y : Py.Qltb x y = true ↔ (x < y)%Q.
Proof.
  unfold Py.Qltb. rewrite negb_true_iff. split; intros H.
  - apply Qnot_le_lt. intros Hle. apply Qle_bool_iff in Hle. congruence.
  - destruct (Qle_bool y x) eqn:E; [|done].
    apply Qle_bool_iff in E. exfalso. by apply (Qlt_not_le x y).
Qed.

Lemma Qltb_false x y : Py.Qltb x y = false ↔ (y <= x)%Q.
Proof. unfold Py.Qltb. rewrite negb_false_iff. apply Qle_bool_iff. Qed.

Lemma mapM_Err {A B} (f : A -> result B) l e :
  mapM f l = Err e → ∃ x, x ∈ l ∧ f x = Err e.
Proof.
  induction l as [|x l IH]; simpl; [done|].
  destruct (f x) as [y|e'] eqn:E; cbn.
  - destruct (mapM f l) as [ys|e'] eqn:E2; cbn; [done|].
    intros [= ->]. destruct IH as (x' & Hx' & Hf); [done|].
    exists x'. split; [by right|done].
  - intros [= ->]. exists x. split; [by left|done].
Qed.

Lemma mapM_Err_2 {A B} (f : A -> result B) l x e :
  x ∈ l → f x = Err e → ∃ e', mapM f l = Err e'.
Proof.
  induction l as [|y l IH]; simpl; [by intros ?%elem_of_nil|].
  intros Hx Hf. destruct (f y) as [z|e'] eqn:E; cbn; [|by exists e'].
  apply elem_of_cons in Hx as [->|Hx]; [congruence|].
  destruct (IH Hx Hf) as [e' ->]. by exists e'.
Qed.

Lemma length_filter_perm {A} (f : A -> bool) l1 l2 :
  l1 ≡ₚ l2 → length (List.filter f l1) = length (List.filter f l2).
Proof.
  induction 1; simpl; try done.
  - destruct (f x); simpl; lia.
  - destruct (f x), (f y); simpl; lia.
  - lia.
Qed.

Lemma filter_filter_andb {A} (f g : A -> bool) l :
  List.filter g (List.filter f l) = List.filter (fun x => f x && g x) l.
Proof.
  induction l as [|x l IH]; simpl; [done|].
  destruct (f x); simpl; [destruct (g x); simpl; by rewrite IH|done].
Qed.

Lemma length_filter_le {A} (f : A -> bool) l : length (List.filter f l) ≤ length l.
Proof. induction l as [|x l IH]; simpl; [lia|]. destruct (f x); simpl; lia. Qed.

Lemma length_filter_all {A} (f : A -> bool) l :
  (∀ x, x ∈ l → f x = true) → length (List.filter f l) = length l.
Proof.
  induction l as [|x l IH]; intros H; simpl; [done|].
  rewrite (H x) by (by left). simpl. rewrite IH; [done|].
  intros y Hy. apply H. by right.
Qed.

Lemma length_filter_none {A} (f : A -> bool) l :
  (∀ x, x ∈ l → f x = false) → length (List.filter f l) = 0.
Proof.
  induction l as [|x l IH]; intros H; simpl; [done|].
  rewrite (H x) by (by left). apply IH.
  intros y Hy. apply H. by right.
Qed.

Lemma length_filter_app {A} (f : A -> bool) l1 l2 :
  length (List.filter f (l1 ++ l2)) =
  length (List.filter f l1) + length (List.filter f l2).
Proof.
  induction l1 as [|x l1 IH]; simpl; [done|]. destruct (f x); simpl; lia.
Qed.

Lemma nth_error_lookup {A} (l : list A) n : nth_error l n = l !! n.
Proof. revert n. induction l as [|x l IH]; intros [|n]; simpl; try done. Qed.

Lemma elem_of_map_fst {A B} (l : list (A * B)) x :
  x ∈ map fst l ↔ ∃ p, (x, p) ∈ l.
Proof.
  change (map fst l) with (fst <$> l). rewrite list_elem_of_fmap. split.
  - intros ([x' p] & -> & H). by exists p.
  - intros (p & H). by exists (x, p).
Qed.

End PyFacts.

(** ** The spatial index *)
Module SpatialFacts.
Import Spatial PyFacts.

Section Nearest.
Variables (idx : list (nat * point)) (q : point) (d : Q).

Let D (e : nat * point) : Q := sqdist q (snd e).
Let bef (a b : nat * point) : bool := Py.Qltb (D a) (D b).
Let cand := List.filter (within d q) idx.
Let byd := Py.sorted_by bef cand.

Lemma byd_sorted p r a b :
  p < r → byd !! p = Some a → byd !! r = Some b → (D a <= D b)%Q.
Proof.
  intros Hpr Ha Hb.
  assert (Hs : StronglySorted (Py.not_after bef) byd).
  { apply sorted_by_sorted.
    - intros x y H. apply Qltb_true in H. apply Qltb_false. by apply Qlt_le_weak.
    - intros x y z H1 H2. apply Qltb_true in H1, H2. apply Qltb_true.
      by apply Qlt_trans with (D y). }
  pose proof (StronglySorted_lookup _ _ _ _ _ _ Hs Hpr Ha Hb) as H.
  unfold Py.not_after, bef in H. by apply Qltb_false in H.
Qed.

Lemma byd_elem e : e ∈ byd ↔ e ∈ idx ∧ within d q e = true.
Proof.
  unfold byd. rewrite sorted_by_perm. unfold cand.
  rewrite !list_elem_of_In, filter_In. done.
Qed.

Lemma count_closer p :
  length (List.filter (fun e => within d q e &&
            Py.Qltb (sqdist q (snd e)) (sqdist q p)) idx) =
  length (List.filter (fun e => Py.Qltb (D e) (sqdist q p)) byd).
Proof.
  rewrite <-filter_filter_andb. apply length_filter_perm.
  unfold byd. by rewrite sorted_by_perm.
Qed.

Lemma closer_bound k' e y :
  byd !! k' = Some e → y ∈ byd →
  ((D y <= D e)%Q ↔
   length (List.filter (fun z => Py.Qltb (D z) (D y)) byd) ≤ k').
Proof.
  intros He Hy. split.
  - intros Hye. rewrite <-(take_drop k' byd), length_filter_app.
    rewrite (length_filter_none _ (drop k' byd)).
    + pose proof (length_filter_le (fun z => Py.Qltb (D z) (D y)) (take k' byd)).
      rewrite length_take in H. lia.
    + intros z Hz. apply list_elem_of_lookup in Hz as [j Hj].
      rewrite lookup_drop in Hj. apply Qltb_false.
      apply Qle_trans with (D e); [done|].
      destruct j as [|j].
      * rewrite Nat.add_0_r, He in Hj. injection Hj as ->. apply Qle_refl.
      * apply (byd_sorted k' (k' + S j)); [lia|done|done].
  - intros Hc. apply Qnot_lt_le. intros Hlt.
    assert (Hlen : k' < length byd) by (by apply lookup_lt_Some in He).
    assert (Hall : length (List.filter (fun z => Py.Qltb (D z) (D y))
                             (take (S k') byd)) = S k').
    { rewrite length_filter_all, length_take; [lia|].
      intros z Hz. apply list_elem_of_lookup in Hz as [j Hj].
      pose proof Hj as Hj'. apply lookup_lt_Some in Hj'.
      rewrite length_take in Hj'. rewrite lookup_take, decide_True in Hj by lia.
      apply Qltb_true. apply Qle_lt_trans with (D e); [|done].
      destruct (decide (j = k')) as [->|Hne].
      - rewrite He in Hj. injection Hj as ->. apply Qle_refl.
      - apply (byd_sorted j k'); [lia|done|done]. }
    rewrite <-(take_drop (S k') byd), length_filter_app, Hall in Hc. lia.
Qed.

Lemma nearestNeighbor_spec k x :
  x ∈ nearestNeighbor idx q k d ↔
  ∃ p, (x, p) ∈ idx ∧ within d q (x, p) = true ∧
    length (List.filter (fun e => within d q e &&
              Py.Qltb (sqdist q (snd e)) (sqdist q p)) idx) < k.
Proof.
  unfold nearestNeighbor.
  change (Py.sorted_by _ (List.filter (within d q) idx)) with byd.
  destruct k as [|k'].
  { split; [intros H; inversion H|intros (p & _ & _ & H); lia]. }
  assert (Hc : ∀ p, (x, p) ∈ byd →
    (length (List.filter (fun e => within d q e &&
       Py.Qltb (sqdist q (snd e)) (sqdist q p)) idx) < S k' ↔
     length (List.filter (fun z => Py.Qltb (D z) (D (x, p))) byd) ≤ k')).
  { intros p _. rewrite (count_closer p). change (D (x, p)) with (sqdist q p). lia. }
  rewrite nth_error_lookup. destruct (byd !! k') as [e|] eqn:He.
  - rewrite elem_of_map_fst. split.
    + intros (p & Hp). apply list_elem_of_In, filter_In in Hp as [Hp Hle].
      apply list_elem_of_In in Hp. pose proof Hp as Hp'.
      apply byd_elem in Hp' as [H1 H2]. exists p. split; [done|]. split; [done|].
      apply Hc; [done|]. apply (closer_bound k' e (x, p)); [done|done|].
      by apply Qle_bool_iff.
    + intros (p & H1 & H2 & H3).
      assert (Hp : (x, p) ∈ byd) by (by apply byd_elem).
      exists p. apply list_elem_of_In, filter_In. split; [by apply list_elem_of_In|].
      apply Qle_bool_iff. apply (closer_bound k' e (x, p)); [done|done|].
      by apply Hc.
  - apply lookup_ge_None in He.
    rewrite elem_of_map_fst. split.
    + intros (p & Hp). pose proof Hp as Hp'. apply byd_elem in Hp' as [H1 H2].
      exists p. split; [done|]. split; [done|]. apply Hc; [done|].
      pose proof (length_filter_le (fun z => Py.Qltb (D z) (D (x, p))) byd). lia.
    + intros (p & H1 & H2 & _). exists p. by apply byd_elem.
Qed.

Lemma nearestNeighbor_nonempty k e :
  e ∈ idx → within d q e = true → nearestNeighbor idx q (S k) d ≠ [].
Proof.
  intros He Hw.
  assert (Hb : e ∈ byd) by (by apply byd_elem).
  destruct byd as [|h t] eqn:Hbyd; [by apply elem_of_nil in Hb|].
  assert (Hh : h ∈ byd) by (rewrite Hbyd; by left).
  destruct h as [x p].
  assert (Hx : x ∈ nearestNeighbor idx q (S k) d).
  { apply nearestNeighbor_spec. apply byd_elem in Hh as [H1 H2].
    exists p. split; [done|]. split; [done|].
    rewrite (count_closer p), Hbyd, length_filter_none; [lia|].
    intros z Hz. apply Qltb_false. apply list_elem_of_lookup in Hz as [j Hj].
    destruct j as [|j].
    - injection Hj as <-. apply Qle_refl.
    - apply (byd_sorted 0 (S j) (x, p) z); [lia|by rewrite Hbyd|by rewrite Hbyd]. }
  intros Hnil. rewrite Hnil in Hx. by apply elem_of_nil in Hx.
Qed.

End Nearest.

Lemma nearestNeighbor_within idx q k d x :
  x ∈ nearestNeighbor idx q k d →
  ∃ p, (x, p) ∈ idx ∧ within d q (x, p) = true.
Proof.
  intros Hx. apply nearestNeighbor_spec in Hx as (p & H1 & H2 & _).
  by exists p.
Qed.

Lemma nearestNeighbor_nil idx q k d :
  nearestNeighbor idx q (S k) d = [] ↔ ∀ e, e ∈ idx → within d q e = false.
Proof.
  split.
  - intros Hnil e He. destruct (within d q e) eqn:Hw; [|done].
    exfalso. by apply (nearestNeighbor_nonempty idx q d k e).
  - intros Hnone. destruct (nearestNeighbor idx q (S k) d) as [|x l] eqn:E;
      [done|exfalso].
    assert (Hx : x ∈ nearestNeighbor idx q (S k) d) by (rewrite E; by left).
    apply nearestNeighbor_spec in Hx as (p & Hp & Hw & _).
    by rewrite Hnone in Hw.
Qed.

Lemma length_filter_zero {A} (f : A -> bool) l :
  length (List.filter f l) = 0 ↔ ∀ x, x ∈ l → f x = false.
Proof.
  split; [|apply length_filter_none].
  induction l as [|y l IH]; simpl; intros H x Hx; [by apply elem_of_nil in Hx|].
  destruct (f y) eqn:Ey; [done|].
  apply elem_of_cons in Hx as [->|Hx]; [done|]. by apply IH.
Qed.

(** With [neighbors = 1]: the entries within [maxDistance] that no other
    entry within it is strictly nearer to. *)
Lemma nearestNeighbor_1 idx q d x :
  x ∈ nearestNeighbor idx q 1 d ↔
  ∃ p, (x, p) ∈ idx ∧ within d q (x, p) = true ∧
    ∀ e, e ∈ idx → within d q e = true → (sqdist q p <= sqdist q (snd e))%Q.
Proof.
  rewrite nearestNeighbor_spec. split.
  - intros (p & H1 & H2 & H3). exists p. split; [done|]. split; [done|].
    assert (H0 : length (List.filter (fun e => within d q e &&
              Py.Qltb (sqdist q (snd e)) (sqdist q p)) idx) = 0) by lia.
    rewrite length_filter_zero in H0.
    intros e He Hw. specialize (H0 e He). rewrite Hw in H0.
    by apply Qltb_false in H0.
  - intros (p & H1 & H2 & H3). exists p. split; [done|]. split; [done|].
    enough (length (List.filter (fun e => within d q e &&
              Py.Qltb (sqdist q (snd e)) (sqdist q p)) idx) = 0) by lia.
    apply length_filter_zero. intros e He.
    destruct (within d q e) eqn:Hw; [|done]. simpl.
    apply Qltb_false. by apply H3.
Qed.

Lemma Qsquare_nonneg (a : Q) : (0 <= a * a)%Q.
Proof. destruct a as [n e]. unfold Qle, Qmult. simpl. nia. Qed.

Lemma sqdist_nonneg p q : (0 <= sqdist p q)%Q.
Proof.
  unfold sqdist. rewrite <-(Qplus_0_l 0).
  apply Qplus_le_compat; apply Qsquare_nonneg.
Qed.

Lemma sqdist_self q : (sqdist q q == 0)%Q.
Proof. unfold sqdist. ring. Qed.

(** A point in the index is among its own neighbours: it is at distance
    0, within any [maxDistance], and nothing is strictly nearer. *)
Lemma nearestNeighbor_self idx q k d x :
  (x, q) ∈ idx → x ∈ nearestNeighbor idx q (S k) d.
Proof.
  intros Hx. apply nearestNeighbor_spec. exists q. split; [done|]. split.
  - unfold within. destruct (Qeq_bool d 0); [done|]. simpl.
    apply Qle_bool_iff. rewrite sqdist_self. apply Qsquare_nonneg.
  - rewrite length_filter_none; [lia|]. intros e _.
    destruct (within d q e); [simpl|done].
    apply Qltb_false. rewrite sqdist_self. apply sqdist_nonneg.
Qed.

End SpatialFacts.

(** ** The merge engine *)
Module MergeTheorems.
Import Spatial Merge PyFacts SpatialFacts.

(** Claim C5. Each record's anchor is queried in the anchor index with
    [k = 5] and its col in the col index with [k = 20], both with the
    caller's [distance] (every returned id lies within it, 0 meaning no
    limit): an id is returned iff its point is within the distance and
    fewer than [k] entries within it are strictly nearer (the [k]
    nearest, with every entry tied at the [k]-th distance); a neighbour
    is a confirmed mutual match iff it is in both results, an anchor-only
    link ([smatch], written to [Merge]) iff it is only in the anchor
    result, and a secondary-only link ([cmatch], written to [Cross]) iff
    it is only in the col result. *)
Theorem mutual_matcher (summits : list summit) (distance : Q) (i x : nat) :
  nbr_s summits distance i =
    nearestNeighbor (anchor_index summits) (s_anchor (summit_at summits i))
      5 distance ∧
  nbr_c summits distance i =
    nearestNeighbor (col_index summits) (s_colpt (summit_at summits i))
      20 distance ∧
  (x ∈ nbr_s summits distance i ↔
     ∃ p, (x, p) ∈ anchor_index summits ∧
       within distance (s_anchor (summit_at summits i)) (x, p) = true ∧
       length (List.filter (fun e =>
         within distance (s_anchor (summit_at summits i)) e &&
         Py.Qltb (sqdist (s_anchor (summit_at summits i)) (snd e))
                 (sqdist (s_anchor (summit_at summits i)) p))
         (anchor_index summits)) < 5) ∧
  (x ∈ nbr_c summits distance i ↔
     ∃ p, (x, p) ∈ col_index summits ∧
       within distance (s_colpt (summit_at summits i)) (x, p) = true ∧
       length (List.filter (fun e =>
         within distance (s_colpt (summit_at summits i)) e &&
         Py.Qltb (sqdist (s_colpt (summit_at summits i)) (snd e))
                 (sqdist (s_colpt (summit_at summits i)) p))
         (col_index summits)) < 20) ∧
  (x ∈ nbr_s summits distance i → ∃ p, (x, p) ∈ anchor_index summits ∧
     within distance (s_anchor (summit_at summits i)) (x, p) = true) ∧
  (x ∈ nbr_c summits distance i → ∃ p, (x, p) ∈ col_index summits ∧
     within distance (s_colpt (summit_at summits i)) (x, p) = true) ∧
  (x ∈ Grouping.mutual (nbr_s summits distance i) (nbr_c summits distance i)
     ↔ x ∈ nbr_s summits distance i ∧ x ∈ nbr_c summits distance i) ∧
  (x ∈ only_first (nbr_s summits distance i) (nbr_c summits distance i)
     ↔ x ∈ nbr_s summits distance i ∧ x ∉ nbr_c summits distance i) ∧
  (x ∈ only_second (nbr_s summits distance i) (nbr_c summits distance i)
     ↔ (x ∉ nbr_s summits distance i) ∧ x ∈ nbr_c summits distance i).
Proof.
  split; [done|]. split; [done|].
  split; [apply nearestNeighbor_spec|].
  split; [apply nearestNeighbor_spec|].
  split; [apply nearestNeighbor_within|].
  split; [apply nearestNeighbor_within|].
  unfold Grouping.mutual, only_first, only_second.
  rewrite !list_elem_of_filter. tauto.
Qed.

Lemma member_loop_sums summits sm cm pos m a :
  let a' := fold_left (member_step summits sm cm pos) m a in
  ga_e a' = (ga_e a + Py.sum_Z (map (fun i => s_ele (summit_at summits i)) m))%Z ∧
  ga_c a' = (ga_c a + Py.sum_Z (map (fun i => s_col (summit_at summits i)) m))%Z.
Proof.
  revert a. induction m as [|i m IH]; intros a; simpl.
  - lia.
  - destruct (IH (member_step summits sm cm pos a i)) as [He Hc].
    rewrite He, Hc. simpl. lia.
Qed.

Lemma sum_Z_sub (f g : nat -> Z) (m : list nat) :
  (Py.sum_Z (map f m) - Py.sum_Z (map g m))%Z = Py.sum_Z (map (fun i => f i - g i)%Z m).
Proof. induction m as [|i m IH]; simpl; lia. Qed.

Lemma aggregate_from_prom summits sm cm dm fs fmap p f :
  (fold_left (aggregate_step summits sm cm) dm (fs, fmap)).1 !! p = Some f →
  fs !! p = Some f ∨
  (length fs ≤ p ∧ ∃ m, dm !! (p - length fs) = Some m ∧
     f_prom f = prominence
       (Py.sum_Z (map (fun i => s_ele (summit_at summits i)) m))
       (Py.sum_Z (map (fun i => s_col (summit_at summits i)) m)) m).
Proof.
  revert fs fmap. induction dm as [|m dm IH]; intros fs fmap Hp; simpl in *.
  - by left.
  - destruct (member_loop_sums summits sm cm (length fs) m
                (GroupAcc 0 0 [] [] ∅ fmap)) as [He Hc].
    change (aggregate_step summits sm cm (fs, fmap) m) with
      ((fs ++ [Feature (prominence
           (ga_e (fold_left (member_step summits sm cm (length fs)) m
                    (GroupAcc 0 0 [] [] ∅ fmap)))
           (ga_c (fold_left (member_step summits sm cm (length fs)) m
                    (GroupAcc 0 0 [] [] ∅ fmap))) m)
           (ga_ss (fold_left (member_step summits sm cm (length fs)) m
                    (GroupAcc 0 0 [] [] ∅ fmap)))
           (ga_cc (fold_left (member_step summits sm cm (length fs)) m
                    (GroupAcc 0 0 [] [] ∅ fmap)))
           (ga_elev (fold_left (member_step summits sm cm (length fs)) m
                    (GroupAcc 0 0 [] [] ∅ fmap)))])%list,
       ga_fmap (fold_left (member_step summits sm cm (length fs)) m
                    (GroupAcc 0 0 [] [] ∅ fmap))) in Hp.
    apply IH in Hp as [Hp|(Hle & m' & Hm' & Hprom)].
    + apply lookup_app_Some in Hp as [Hp|(Hle & Hp)]; [by left|right].
      apply list_lookup_singleton_Some in Hp as [Hp <-].
      split; [lia|]. exists m. split.
      * by replace (p - length fs) with 0 by lia.
      * simpl. rewrite He, Hc. done.
    + right. rewrite length_app in Hle, Hm'. simpl in Hle, Hm'.
      split; [lia|]. exists m'. split; [|done].
      replace (p - length fs) with (S (p - (length fs + 1))) by lia. done.
Qed.

(** Claim C2. The feature built for group [m] (the [p]-th group of [dm])
    has as prominence the exact quotient (sum of the members'
    elevations - sum of their col elevations) / member count, which is
    also the plain average of the members' integer prominences: no
    member value is rounded before the division. *)
Theorem aggregate_prominence (summits : list summit) (sm cm : nat -> list nat)
  (dm : list (list nat)) (p : nat) (f : feature)
  (Hf : (aggregate summits sm cm dm).1 !! p = Some f) :
  ∃ m, dm !! p = Some m ∧
    f_prom f = (inject_Z
                  (Py.sum_Z (map (fun i => s_ele (summit_at summits i)) m) -
                   Py.sum_Z (map (fun i => s_col (summit_at summits i)) m)) /
                inject_Z (Z.of_nat (length m)))%Q ∧
    f_prom f = (inject_Z
                  (Py.sum_Z (map (fun i => s_ele (summit_at summits i) -
                                        s_col (summit_at summits i))%Z m)) /
                inject_Z (Z.of_nat (length m)))%Q.
Proof.
  apply aggregate_from_prom in Hf as [Hf|(_ & m & Hm & Hprom)];
    [done|].
  rewrite Nat.sub_0_r in Hm. exists m. split; [done|].
  rewrite Hprom. unfold prominence. split; [done|].
  by rewrite sum_Z_sub.
Qed.

Lemma rank_order_perm features : rank_order features ≡ₚ Py.enumerate features.
Proof. apply sorted_by_perm. Qed.

Lemma rank_order_stable features :
  StronglySorted
    (Py.stable_after (fun a b : nat * feature => Py.Qltb (f_prom (snd b)) (f_prom (snd a))) fst)
    (rank_order features).
Proof.
  apply sorted_by_stable; [| | |apply enumerate_sorted].
  - intros x y H. apply Qltb_true in H. apply Qltb_false. by apply Qlt_le_weak.
  - intros x y z H1 H2. apply Qltb_true in H1, H2. apply Qltb_true.
    by apply Qlt_trans with (f_prom (snd y)).
  - intros x y z H. apply Qltb_true in H. rewrite !Qltb_true.
    destruct (Qlt_le_dec (f_prom (snd z)) (f_prom (snd x))) as [Hz|Hz];
      [by left|right].
    by apply Qlt_le_trans with (f_prom (snd x)).
Qed.

Lemma rank_order_sorted features p q j k fj fk :
  p < q → rank_order features !! p = Some (j, fj) →
  rank_order features !! q = Some (k, fk) →
  (f_prom fk <= f_prom fj)%Q ∧ ((f_prom fj == f_prom fk)%Q → j < k).
Proof.
  intros Hpq Hp Hq.
  destruct (StronglySorted_lookup _ _ _ _ _ _ (rank_order_stable features)
              Hpq Hp Hq) as [H1 H2]; simpl in *.
  apply Qltb_false in H1. split; [done|].
  intros Heq. apply H2. apply Qltb_false. rewrite Heq. apply Qle_refl.
Qed.

Lemma rank_order_lookup features p j f :
  rank_order features !! p = Some (j, f) → features !! j = Some f.
Proof.
  intros Hp. apply list_elem_of_lookup_2 in Hp.
  rewrite rank_order_perm in Hp. apply list_elem_of_lookup in Hp as [q Hq].
  rewrite lookup_enumerate in Hq.
  destruct (features !! q) eqn:E; simplify_eq/=. done.
Qed.

Lemma length_rank_order features : length (rank_order features) = length features.
Proof. by rewrite rank_order_perm, length_enumerate. Qed.

(** What [rank] puts at each output position. *)
Lemma rank_lookup features fmap out :
  rank features fmap = Ok out →
  length out = length features ∧
  ∀ p o, out !! p = Some o → ∃ j f,
    rank_order features !! p = Some (j, f) ∧ features !! j = Some f ∧
    o_fid o = p ∧ o_ID o = fmt_id p ∧ o_prom o = f_prom f ∧
    o_elev o = f_elev f ∧
    resolve fmap (inverse_index (map fst (rank_order features))) (f_merge f)
      = Ok (o_merge o) ∧
    resolve fmap (inverse_index (map fst (rank_order features))) (f_cross f)
      = Ok (o_cross o).
Proof.
  intros H. unfold rank in H.
  destruct features as [|f0 fs]; [done|].
  apply mapM_Ok in H.
  split.
  { apply Forall2_length in H.
    by rewrite <-H, length_enumerate, length_rank_order. }
  intros p o Hp.
  destruct (Forall2_lookup_r _ _ _ _ _ H Hp) as ([i [j f]] & Hl & Hok).
  rewrite lookup_enumerate in Hl.
  destruct (rank_order (f0 :: fs) !! p) as [[j' f']|] eqn:Hr;
    simplify_eq/=.
  destruct (resolve fmap _ (f_merge f)) as [mg|e] eqn:Hm; [|done].
  cbn in Hok.
  destruct (resolve fmap _ (f_cross f)) as [cr|e] eqn:Hc; [|done].
  cbn in Hok. injection Hok as <-.
  exists j, f. simpl. repeat split; try done.
  eapply rank_order_lookup; eassumption.
Qed.

Lemma resolve_ids fmap index xs ms :
  resolve fmap index xs = Ok ms → ∀ r, r ∈ ms → ∃ m, m ∈ index ∧ r = fmt_id m.
Proof.
  unfold resolve. destruct xs as [|x xs].
  { intros H. injection H as <-. set_solver. }
  destruct (mapM _ (x :: xs)) as [js|e]; cbn; [|done].
  destruct (mapM _ (remove_dups js)) as [ms'|e] eqn:E; cbn; [|done].
  intros H. injection H as <-. intros r Hr.
  apply list_elem_of_fmap in Hr as (m & -> & Hm).
  apply mapM_Ok in E. apply list_elem_of_lookup in Hm as [q Hq].
  destruct (Forall2_lookup_r _ _ _ _ _ E Hq) as (j & _ & Hj).
  unfold Py.get_or in Hj. destruct (index !! j) eqn:Hij; [|done].
  injection Hj as ->. exists m. split; [|done].
  by apply list_elem_of_lookup_2 with j.
Qed.

Lemma inverse_index_bound order m :
  m ∈ inverse_index order → m < length order.
Proof.
  unfold inverse_index. intros Hm.
  apply list_elem_of_fmap in Hm as ([m' v] & -> & Hm).
  rewrite sorted_by_perm in Hm. apply list_elem_of_lookup in Hm as [q Hq].
  rewrite lookup_enumerate in Hq.
  destruct (order !! q) eqn:E; simplify_eq/=.
  by apply lookup_lt_Some with v.
Qed.

Lemma rank_refs features fmap out :
  rank features fmap = Ok out →
  ∀ o r, o ∈ out → r ∈ (o_merge o ++ o_cross o)%list →
  ∃ o', o' ∈ out ∧ o_ID o' = r.
Proof.
  intros H. destruct (rank_lookup _ _ _ H) as [Hlen Hl].
  intros o r Ho Hr. apply list_elem_of_lookup in Ho as [p Hp].
  destruct (Hl p o Hp) as (j & f & _ & _ & _ & _ & _ & _ & Hm & Hc).
  assert (∃ m, m ∈ inverse_index (map fst (rank_order features)) ∧
               r = fmt_id m) as (m & Hm' & ->).
  { apply elem_of_app in Hr as [Hr|Hr].
    - by apply (resolve_ids _ _ _ _ Hm).
    - by apply (resolve_ids _ _ _ _ Hc). }
  apply inverse_index_bound in Hm'.
  rewrite length_map, length_rank_order, <-Hlen in Hm'.
  apply lookup_lt_is_Some in Hm' as [o' Ho'].
  exists o'. split; [by apply list_elem_of_lookup_2 with m|].
  by destruct (Hl m o' Ho') as (? & ? & _ & _ & _ & -> & _).
Qed.

(** Claim C3, as the code has it. The output has one feature per
    provisional entity; the feature at position [p] (rank [p + 1]) is
    the [p]-th of [rank_order], a permutation of the provisional
    entities sorted by descending prominence with ties in provisional
    order; its [fid] is [p] and its ID is [fmt_id p], i.e. ["S"] and
    [p + 1] zero-padded to at least four digits (["S0001"], ...,
    ["S9999"], ["S10000"], ...). *)
Theorem ranking_order (features : list feature) (fmap : gmap nat nat)
  (out : list out_feature) (Hrank : rank features fmap = Ok out) :
  rank_order features ≡ₚ Py.enumerate features ∧
  length out = length features ∧
  (∀ p o, out !! p = Some o → ∃ j f,
     rank_order features !! p = Some (j, f) ∧ features !! j = Some f ∧
     o_fid o = p ∧ o_ID o = String.append "S" (Py.format04 (p + 1)) ∧
     o_prom o = f_prom f) ∧
  (∀ p q j k fj fk, p < q →
     rank_order features !! p = Some (j, fj) →
     rank_order features !! q = Some (k, fk) →
     (f_prom fk <= f_prom fj)%Q ∧ ((f_prom fj == f_prom fk)%Q → j < k)).
Proof.
  destruct (rank_lookup _ _ _ Hrank) as [Hlen Hl].
  split; [apply rank_order_perm|]. split; [done|]. split.
  - intros p o Hp. destruct (Hl p o Hp) as (j & f & H1 & H2 & H3 & H4 & H5 & _).
    exists j, f. by repeat split.
  - apply rank_order_sorted.
Qed.

(** Claim C4, as the code has it. Every identifier in an output
    feature's [Merge] or [Cross] list is the ID of some feature of the
    same output; self-references are not removed. *)
Theorem merge_refs_resolve (layers : list layer) (distance : Q)
  (out : list out_feature)
  (Hrun : processAlgorithm layers distance = Ok out) :
  ∀ o r, o ∈ out → r ∈ (o_merge o ++ o_cross o)%list →
  ∃ o', o' ∈ out ∧ o_ID o' = r.
Proof.
  unfold processAlgorithm in Hrun.
  destruct (configure layers) as [ll|e]; cbn in Hrun; [|done].
  unfold merge_summits in Hrun.
  destruct (aggregate _ _ _ _) as [features fmap].
  by apply rank_refs with features fmap.
Qed.

(** *** Layer configuration *)

Lemma upper_match_ci t s m : match_ci t s = Some m → upper m = t.
Proof.
  revert s m. induction t as [|c t IH]; intros s m H; simpl in H.
  - by injection H as <-.
  - destruct s as [|a s]; [done|].
    destruct (Ascii.eqb (ascii_upper a) c) eqn:E; [|done].
    destruct (match_ci t s) as [m'|] eqn:Em; simpl in H; [|done].
    injection H as <-. simpl. apply Ascii.eqb_eq in E.
    by rewrite E, (IH s m' Em).
Qed.

Lemma upper_match_alts tags s m : match_alts tags s = Some m → upper m ∈ tags.
Proof.
  induction tags as [|t tags IH]; simpl; [done|].
  destruct (match_ci t s) as [m'|] eqn:E; intros H.
  - injection H as <-. apply upper_match_ci in E as ->. by left.
  - right. by apply IH.
Qed.

Lemma upper_re_search tags s m : re_search tags s = Some m → upper m ∈ tags.
Proof.
  induction s as [|a s IH]; simpl;
    destruct (match_alts tags _) as [m'|] eqn:E; intros H; try done.
  - injection H as <-. by apply upper_match_alts with "".
  - injection H as <-. by apply upper_match_alts with (String a s).
  - by apply IH.
Qed.

Lemma ll_lookup_set ll k l t :
  ll_lookup (ll_set ll k l) t =
  if String.eqb t k then (fun _ => Some l) <$> ll_lookup ll t
  else ll_lookup ll t.
Proof.
  induction ll as [|[k' v] ll IH]; simpl.
  - by destruct (String.eqb t k).
  - destruct (String.eqb k k') eqn:E1; simpl.
    + apply String.eqb_eq in E1 as <-.
      destruct (String.eqb t k) eqn:E2; simpl; rewrite ?E2; [done|].
      done.
    + destruct (String.eqb t k') eqn:E2.
      * apply String.eqb_eq in E2 as ->.
        by rewrite String.eqb_sym, E1.
      * rewrite IH. by destruct (String.eqb t k); simpl; rewrite ?E2.
Qed.

Lemma keys_ll_set ll k l : map fst (ll_set ll k l) = map fst ll.
Proof.
  induction ll as [|[k' v] ll IH]; simpl; [done|].
  destruct (String.eqb k k'); simpl; by rewrite IH.
Qed.

Lemma ll_lookup_key ll t : t ∈ map fst ll → ll_lookup ll t ≠ None.
Proof.
  induction ll as [|[k v] ll IH]; simpl; [set_solver|].
  intros Ht. destruct (String.eqb_spec t k); [done|].
  apply IH. apply elem_of_cons in Ht as [->|Ht]; [done|done].
Qed.

Lemma free_after_set ll k l t :
  ll_lookup ll k ≠ None →
  (∀ p, ll_lookup (ll_set ll k l) t ≠ Some (Some p)) ↔
  (∀ p, ll_lookup ll t ≠ Some (Some p)) ∧ t ≠ k.
Proof.
  intros Hk. rewrite ll_lookup_set.
  destruct (String.eqb_spec t k) as [->|Hne]; simpl.
  - split; [|by intros [_ []]].
    intros H. destruct (ll_lookup ll k) eqn:E; [|done].
    exfalso. by apply (H l).
  - split; [by intros H|by intros [H _]].
Qed.

Lemma configure_from_ok ll layers :
  map fst ll = dem_tags →
  (∃ ll', configure_from ll layers = Ok ll') ↔
  Forall (fun l => ∃ t, layer_tag l = Some t ∧
                        ∀ p, ll_lookup ll t ≠ Some (Some p)) layers ∧
  NoDup (map layer_tag layers).
Proof.
  revert ll. induction layers as [|l ls IH]; intros ll Hk; simpl.
  { split; [intros _; split; constructor|eauto]. }
  rewrite Forall_cons, NoDup_cons. unfold config_step.
  destruct (re_search dem_tags (lname l)) as [m|] eqn:Hm.
  2:{ split; [by intros [? ?]|].
      intros [[(t & Ht & _) _] _]. unfold layer_tag in Ht.
      by rewrite Hm in Ht. }
  assert (Hkey : upper m ∈ map fst ll)
    by (rewrite Hk; by apply upper_re_search with (lname l)).
  assert (Htag : layer_tag l = Some (upper m))
    by (unfold layer_tag; by rewrite Hm).
  destruct (ll_lookup ll (upper m)) as [[prev|]|] eqn:Hl.
  - split.
    + intros [ll' H]. destruct (ll_lookup ll m) as [[p'|]|]; done.
    + intros [[(t & Ht & Hp) _] _]. rewrite Htag in Ht.
      injection Ht as <-. exfalso. by apply (Hp prev).
  - cbn. rewrite IH by (by rewrite keys_ll_set).
    assert (Hnn : ll_lookup ll (upper m) ≠ None) by congruence.
    split.
    + intros [HF HN]. split; [split|split; [|done]].
      * exists (upper m). split; [done|]. rewrite Hl. congruence.
      * eapply Forall_impl; [exact HF|]. intros x (t & Ht & Hp).
        exists t. split; [done|]. by apply (free_after_set _ _ l t Hnn).
      * intros Hin. apply list_elem_of_fmap in Hin as (x & Heq & Hx).
        rewrite Forall_forall in HF. destruct (HF x Hx) as (t & Ht & Hp).
        apply (free_after_set _ _ l t Hnn) in Hp as [_ Hne].
        apply Hne. congruence.
    + intros [[_ HF] [HN HD]]. split; [|done].
      apply Forall_forall. intros x Hx. rewrite Forall_forall in HF.
      destruct (HF x Hx) as (t & Ht & Hp). exists t. split; [done|].
      apply (free_after_set _ _ l t Hnn). split; [done|].
      intros ->. apply HN. apply list_elem_of_fmap. exists x.
      split; [congruence|done].
  - exfalso. by apply (ll_lookup_key ll (upper m)).
Qed.

Lemma empty_layer_list_free t p : ll_lookup empty_layer_list t ≠ Some (Some p).
Proof.
  unfold empty_layer_list, dem_tags. simpl.
  repeat (destruct (String.eqb t _); [done|]). done.
Qed.

(** Claim C6, as the code has it. The configuration succeeds iff every
    layer name contains one of the tags (case-insensitively) and the
    tags the layers map to, the upper-cased leftmost match, are pairwise
    distinct; a name containing several tags maps to the leftmost one.
    When it fails, the whole run fails with the same error and emits no
    feature. *)
Theorem layer_config (layers : list layer) (distance : Q) :
  ((∃ ll, configure layers = Ok ll) ↔
   Forall (fun l => layer_tag l ≠ None) layers ∧
   NoDup (map layer_tag layers)) ∧
  (∀ e, configure layers = Err e → processAlgorithm layers distance = Err e).
Proof.
  split.
  - unfold configure. rewrite configure_from_ok by done.
    split; intros [HF HN]; split; try done; eapply Forall_impl; try exact HF.
    + by intros l (t & -> & _).
    + intros l Hl. simpl in Hl. destruct (layer_tag l) as [t|]; [|congruence].
      exists t. split; [done|]. apply empty_layer_list_free.
  - intros e He. unfold processAlgorithm. by rewrite He.
Qed.

Section Samples.
Import Examples.
Local Open Scope string_scope.

(** Six records at one point: asked for the 5 nearest, the anchor index
    answers with all six, the entries tied with the fifth included. *)
Lemma nbr_s_ties_sample :
  nbr_s six_peaks (inject_Z 5) 0 = [0; 1; 2; 3; 4; 5].
Proof. vm_compute. reflexivity. Qed.

(** The three isolated summits of prominence 120, 450 and 300 are ranked
    450, 300, 120: the first one gets ["S0003"], not ["S0002"]; and rank
    10000 is written with five digits. *)
Lemma ranking_example_differs :
  rank (fst features3) (snd features3) = Ok out3 ∧
  map (fun o => (o_prom o, o_ID o)) out3 =
    [(450%Q, "S0001"); (300%Q, "S0002"); (120%Q, "S0003")] ∧
  ¬ (∃ o, o ∈ out3 ∧ o_prom o = 120%Q ∧ o_ID o = "S0002") ∧
  fmt_id 9999 = "S10000".
Proof.
  split; [vm_compute; reflexivity|].
  split; [vm_compute; reflexivity|].
  split; [|vm_compute; reflexivity].
  intros (o & Ho & Hp & Hi).
  apply list_elem_of_In in Ho. vm_compute in Ho.
  destruct Ho as [<-|[<-|[<-|[]]]]; vm_compute in Hp, Hi; congruence.
Qed.

(** The second of the three isolated summits: a group of one member of
    prominence 1450 - 1000. *)
Lemma aggregate_prominence_witness :
  features_grp.1 !! 0 = Some fg ∧ f_prom fg = (361 # 3)%Q ∧
  ∃ m, [[0; 1; 2]] !! 0 = Some m ∧
    f_prom fg =
      (inject_Z
         (Py.sum_Z (map (fun i => s_ele (summit_at peaks_grp i)) m) -
          Py.sum_Z (map (fun i => s_col (summit_at peaks_grp i)) m)) /
       inject_Z (Z.of_nat (length m)))%Q ∧
    f_prom fg =
      (inject_Z
         (Py.sum_Z (map (fun i => s_ele (summit_at peaks_grp i) -
                                  s_col (summit_at peaks_grp i))%Z m)) /
       inject_Z (Z.of_nat (length m)))%Q.
Proof.
  assert (H : features_grp.1 !! 0 = Some fg) by (vm_compute; reflexivity).
  split; [exact H|]. split; [vm_compute; reflexivity|].
  exact (aggregate_prominence peaks_grp (fun _ => []) (fun _ => [])
           [[0; 1; 2]] 0 fg H).
Defined.

Lemma ranking_order_witness :
  rank (fst features3) (snd features3) = Ok out3 ∧
  map o_ID out3 = ["S0001"; "S0002"; "S0003"] ∧
  length out3 = length (fst features3).
Proof.
  assert (H : rank (fst features3) (snd features3) = Ok out3)
    by (vm_compute; reflexivity).
  split; [exact H|]. split; [vm_compute; reflexivity|].
  exact (proj1 (proj2 (ranking_order _ _ _ H))).
Defined.

(** On [layers3] the single output entity lists itself in [Merge]. *)
Lemma merge_self_link :
  processAlgorithm layers3 (inject_Z 5) = Ok out_layers3 ∧
  map (fun o => (o_ID o, o_merge o)) out_layers3 = [("S0001", ["S0001"])].
Proof. split; vm_compute; reflexivity. Qed.

Lemma merge_refs_resolve_witness :
  processAlgorithm layers3 (inject_Z 5) = Ok out_layers3 ∧
  ∀ o r, o ∈ out_layers3 → r ∈ (o_merge o ++ o_cross o)%list →
  ∃ o', o' ∈ out_layers3 ∧ o_ID o' = r.
Proof.
  assert (H : processAlgorithm layers3 (inject_Z 5) = Ok out_layers3)
    by (vm_compute; reflexivity).
  split; [exact H|]. exact (merge_refs_resolve _ _ _ H).
Defined.

(** The three records of [layers3] are each returned by their own
    queries, and their groups are the closure of the mutual matches. *)
Lemma grouping_partition_witness :
  length summits3 = 3 ∧
  (∀ i, i < 3 → i ∈ nbr_s summits3 (inject_Z 5) i ∧
                i ∈ nbr_c summits3 (inject_Z 5) i) ∧
  (∀ x y, x < 3 → y < 3 →
     Grouping.same_group
       (Grouping.build (nbr_s summits3 (inject_Z 5)) (nbr_c summits3 (inject_Z 5))
          (seq 0 3)) x y ↔
     clos_refl_sym_trans nat
       (Grouping.match_rel 3 (nbr_s summits3 (inject_Z 5))
          (nbr_c summits3 (inject_Z 5))) x y).
Proof.
  assert (Hself : ∀ i, i < 3 → i ∈ nbr_s summits3 (inject_Z 5) i ∧
                               i ∈ nbr_c summits3 (inject_Z 5) i).
  { intros i Hi. destruct i as [|[|[|i]]]; [| | |lia];
      split; apply list_elem_of_In; vm_compute; auto. }
  split; [vm_compute; reflexivity|]. split; [exact Hself|].
  exact (proj1 (proj2 (GroupingTheorems.grouping_partition 3 _ _ Hself
                         (seq 0 3) (reflexivity _)))).
Defined.

(** A name containing two tags is accepted and mapped to the leftmost
    one: the run emits the layer's summit. *)
Lemma layer_two_tags_accepted :
  layer_tag (Layer "SRTM_ASTER" []) = Some "SRTM" ∧
  ∃ out, processAlgorithm [Layer "SRTM_ASTER" [feat 0 0 0 10 1000 800]]
           (inject_Z 5) = Ok out ∧ length out = 1.
Proof.
  split; [vm_compute; reflexivity|].
  exists (match processAlgorithm [Layer "SRTM_ASTER" [feat 0 0 0 10 1000 800]]
                  (inject_Z 5) with Ok o => o | Err _ => [] end).
  split; vm_compute; reflexivity.
Qed.

(** Two layers both inferring SRTM abort the run: with [ProcessingException]
    when the later layer's match is upper-case, and with [KeyError] when
    it is not, as the message's lookup [layerList[m.group(0)]] fails
    first. *)
Lemma layer_duplicate_errors :
  processAlgorithm [Layer "srtm a" []; Layer "SRTM b" []] (inject_Z 5) =
    Err (ProcessingException "Layer SRTM b appears to be the same DEM as srtm a") ∧
  processAlgorithm [Layer "SRTM a" []; Layer "srtm b" []] (inject_Z 5) =
    Err KeyError.
Proof. split; vm_compute; reflexivity. Qed.
End Samples.
End MergeTheorems.

(** ** The reconcilers *)
Module TopoTheorems.
Import Spatial Topo PyFacts.
Local Open Scope string_scope.

(** *** Field-by-field effect of the steps *)

Lemma key_reference_eq f rf :
  key_reference f rf =
  (if contains "move" (r_action rf) then f else set_Reference f (r_ref rf),
   if contains "move" (r_action rf) || String.eqb (r_action rf) "ok"
      || String.eqb (r_action rf) "move" then [] else [r_action rf]).
Proof. unfold key_reference. by destruct (contains "move" (r_action rf)). Qed.

Lemma key_elevation_fields f rf notes :
  let p := key_elevation f rf notes in
  t_Name p.1 = t_Name f ∧ t_Col p.1 = t_Col f ∧
  t_Reference p.1 = t_Reference f ∧ t_Notes p.1 = t_Notes f ∧
  t_Prominence p.1 = t_Prominence f ∧
  t_Elevation p.1 =
    (if truthy_Z (t_Elevation f) then t_Elevation f else
     match r_check_ele rf with
     | Some s => if truthy_str (Some s) && isdecimal s
                 then Some (parse_int s) else t_Elevation f
     | None => t_Elevation f
     end) ∧
  p.2 = (notes ++
         (if truthy_Z (t_Elevation f) then [] else
          match r_check_ele rf with
          | Some s => if truthy_str (Some s) && negb (isdecimal s)
                      then [String.append "ele:" s] else []
          | None => []
          end))%list.
Proof.
  unfold key_elevation.
  destruct (truthy_Z (t_Elevation f)); [by rewrite app_nil_r|].
  destruct (r_check_ele rf) as [s|]; [|by rewrite app_nil_r].
  destruct (truthy_str (Some s)); [|by rewrite app_nil_r].
  destruct (isdecimal s); simpl; [by rewrite app_nil_r|done].
Qed.

Lemma key_col_fields f rf notes :
  let p := key_col f rf notes in
  t_Name p.1 = t_Name f ∧ t_Elevation p.1 = t_Elevation f ∧
  t_Reference p.1 = t_Reference f ∧ t_Notes p.1 = t_Notes f ∧
  t_Prominence p.1 = t_Prominence f ∧
  t_Col p.1 =
    (if truthy_Z (t_Col f) then t_Col f else
     match r_check_col rf with
     | Some s => if truthy_str (Some s) && isdecimal s
                 then Some (parse_int s) else t_Col f
     | None => t_Col f
     end) ∧
  p.2 = (notes ++
         (if truthy_Z (t_Col f) then [] else
          match r_check_col rf with
          | Some s => if truthy_str (Some s) && negb (isdecimal s)
                      then [String.append "col:" s] else []
          | None => []
          end))%list.
Proof.
  unfold key_col.
  destruct (truthy_Z (t_Col f)); [by rewrite app_nil_r|].
  destruct (r_check_col rf) as [s|]; [|by rewrite app_nil_r].
  destruct (truthy_str (Some s)); [|by rewrite app_nil_r].
  destruct (isdecimal s); simpl; [by rewrite app_nil_r|done].
Qed.

Lemma write_notes_fields f notes :
  let g := write_notes f notes in
  t_Name g = t_Name f ∧ t_Elevation g = t_Elevation f ∧ t_Col g = t_Col f ∧
  t_Reference g = t_Reference f ∧ t_Prominence g = t_Prominence f ∧
  t_Notes g = match notes with
              | [] => t_Notes f
              | _ => Some (String.concat "; " notes)
              end.
Proof. unfold write_notes. by destruct notes. Qed.

Lemma update_prominence_fields f :
  let g := update_prominence f in
  t_Name g = t_Name f ∧ t_Elevation g = t_Elevation f ∧ t_Col g = t_Col f ∧
  t_Reference g = t_Reference f ∧ t_Notes g = t_Notes f ∧
  t_Prominence g = match t_Elevation f, t_Col f with
                   | Some e, Some c =>
                       if truthy_Z (Some e) && truthy_Z (Some c)
                       then Some (e - c)%Z else t_Prominence f
                   | _, _ => t_Prominence f
                   end.
Proof.
  destruct f as [fid id nm el co rf pr nt g]. unfold update_prominence. simpl.
  destruct el as [e|], co as [c|]; try done.
  by destruct (negb (Z.eqb e 0) && negb (Z.eqb c 0)).
Qed.

(** Claim C7, as the code has it. For a source record whose [ID] is the
    [Match] of a reference entry: [Name], [Elevation] and [Col elevation]
    keep a truthy value and are filled only when falsy (NULL, empty, 0),
    an elevation only from a decimal override; a non-decimal override
    becomes a note ["ele:..."] / ["col:..."]; the notes, with the action
    first unless it is ok/move, replace [Notes] when there are any;
    [Reference] is set from the entry unless the action contains
    ["move"], and [Prominence] is recomputed. *)
Theorem key_update_fills (reference : list ref_entry) (f : tfeature)
  (rf : ref_entry) (Hrf : build_refs reference !! t_ID f = Some rf) :
  let f' := key_update (build_refs reference) f in
  let a := r_action rf in
  let act := if contains "move" a || String.eqb a "ok" || String.eqb a "move"
             then [] else [a] in
  let ele := if truthy_Z (t_Elevation f) then [] else
             match r_check_ele rf with
             | Some s => if truthy_str (Some s) && negb (isdecimal s)
                         then [String.append "ele:" s] else []
             | None => []
             end in
  let col := if truthy_Z (t_Col f) then [] else
             match r_check_col rf with
             | Some s => if truthy_str (Some s) && negb (isdecimal s)
                         then [String.append "col:" s] else []
             | None => []
             end in
  let notes := (act ++ ele ++ col)%list in
  t_Name f' = (if truthy_str (t_Name f) then t_Name f else r_name rf) ∧
  t_Elevation f' =
    (if truthy_Z (t_Elevation f) then t_Elevation f else
     match r_check_ele rf with
     | Some s => if truthy_str (Some s) && isdecimal s
                 then Some (parse_int s) else t_Elevation f
     | None => t_Elevation f
     end) ∧
  t_Col f' =
    (if truthy_Z (t_Col f) then t_Col f else
     match r_check_col rf with
     | Some s => if truthy_str (Some s) && isdecimal s
                 then Some (parse_int s) else t_Col f
     | None => t_Col f
     end) ∧
  t_Notes f' = match notes with
               | [] => t_Notes f
               | _ => Some (String.concat "; " notes)
               end ∧
  t_Reference f' =
    (if contains "move" a then t_Reference f else r_ref rf) ∧
  t_Prominence f' = match t_Elevation f', t_Col f' with
                    | Some e, Some c =>
                        if truthy_Z (Some e) && truthy_Z (Some c)
                        then Some (e - c)%Z else t_Prominence f
                    | _, _ => t_Prominence f
                    end.
Proof.
  cbv zeta. unfold key_update. rewrite Hrf, key_reference_eq. cbv beta iota.
  remember (if contains "move" (r_action rf) || String.eqb (r_action rf) "ok"
               || String.eqb (r_action rf) "move" then [] else [r_action rf])
    as act eqn:Hact.
  remember (if contains "move" (r_action rf) then f
            else set_Reference f (r_ref rf)) as f1 eqn:Hf1.
  assert (H1 : t_Name f1 = t_Name f ∧ t_Elevation f1 = t_Elevation f ∧
               t_Col f1 = t_Col f ∧ t_Notes f1 = t_Notes f ∧
               t_Prominence f1 = t_Prominence f ∧
               t_Reference f1 = if contains "move" (r_action rf)
                                then t_Reference f else r_ref rf)
    by (subst f1; by destruct (contains "move" (r_action rf))).
  destruct H1 as (N1 & E1 & C1 & O1 & P1 & R1).
  remember (if truthy_str (t_Name f1) then f1 else set_Name f1 (r_name rf))
    as f2 eqn:Hf2.
  assert (H2 : t_Name f2 = (if truthy_str (t_Name f) then t_Name f
                            else r_name rf) ∧
               t_Elevation f2 = t_Elevation f ∧ t_Col f2 = t_Col f ∧
               t_Notes f2 = t_Notes f ∧ t_Prominence f2 = t_Prominence f ∧
               t_Reference f2 = t_Reference f1)
    by (subst f2; rewrite N1; by destruct (truthy_str (t_Name f))).
  destruct H2 as (N2 & E2 & C2 & O2 & P2 & R2).
  pose proof (key_elevation_fields f2 rf act) as H3.
  destruct (key_elevation f2 rf act) as [f3 n3] eqn:Ek.
  cbn [fst snd] in H3. destruct H3 as (N3 & C3 & R3 & O3 & P3 & E3 & L3).
  pose proof (key_col_fields f3 rf n3) as H4.
  destruct (key_col f3 rf n3) as [f4 n4] eqn:Ec.
  cbn [fst snd] in H4. destruct H4 as (N4 & E4 & R4 & O4 & P4 & C4 & L4).
  destruct (write_notes_fields f4 n4) as (N5 & E5 & C5 & R5 & P5 & O5).
  destruct (update_prominence_fields (write_notes f4 n4))
    as (N6 & E6 & C6 & R6 & O6 & P6).
  rewrite E2 in E3, L3. rewrite C3, C2 in C4, L4.
  rewrite L3 in L4. rewrite <-app_assoc in L4.
  rewrite P6, E5, C5, P5, P4, P3, P2.
  rewrite N6, E6, C6, O6, R6, N5, E5, C5, O5, R5.
  rewrite N4, E4, C4, O4, R4, N3, E3, O3, R3, N2, O2, R2, R1, L4.
  repeat split.
Qed.

Lemma key_update_Reference refs f rf :
  refs !! t_ID f = Some rf →
  t_Reference (key_update refs f) =
  if contains "move" (r_action rf) then t_Reference f else r_ref rf.
Proof.
  intros Hrf. unfold key_update. rewrite Hrf, key_reference_eq. cbv beta iota.
  set (act := if contains "move" (r_action rf) || String.eqb (r_action rf) "ok"
                 || String.eqb (r_action rf) "move" then [] else [r_action rf]).
  set (f1 := if contains "move" (r_action rf) then f
             else set_Reference f (r_ref rf)).
  set (f2 := if truthy_str (t_Name f1) then f1 else set_Name f1 (r_name rf)).
  assert (R2 : t_Reference f2 = if contains "move" (r_action rf)
                                then t_Reference f else r_ref rf).
  { unfold f2, f1. destruct (contains "move" (r_action rf));
      by destruct (truthy_str _). }
  pose proof (key_elevation_fields f2 rf act) as H3.
  destruct (key_elevation f2 rf act) as [f3 n3].
  cbn [fst snd] in H3. destruct H3 as (_ & _ & R3 & _).
  pose proof (key_col_fields f3 rf n3) as H4.
  destruct (key_col f3 rf n3) as [f4 n4].
  cbn [fst snd] in H4. destruct H4 as (_ & _ & R4 & _).
  destruct (write_notes_fields f4 n4) as (_ & _ & _ & R5 & _).
  destruct (update_prominence_fields (write_notes f4 n4)) as (_ & _ & _ & R6 & _).
  by rewrite R6, R5, R4, R3, R2.
Qed.

Lemma sp_elevation_Reference f rf notes :
  t_Reference (sp_elevation f rf notes).1 = t_Reference f.
Proof.
  unfold sp_elevation. destruct (truthy_Z (t_Elevation f)); [done|].
  destruct (r_check_ele rf) as [s|]; [|done].
  destruct (truthy_str (Some s)); [|done]. by destruct (isdecimal s).
Qed.

Lemma sp_col_Reference f rf notes :
  t_Reference (sp_col f rf notes).1 = t_Reference f.
Proof.
  unfold sp_col. destruct (truthy_Z (t_Col f)); [done|].
  destruct (r_check_col rf) as [s|]; [|done].
  destruct (truthy_str (Some s)); [|done]. by destruct (isdecimal s).
Qed.

(** A full match in spatial mode: [Reference] is set from the entry
    unless its action contains ["switch"]. *)
Lemma sp_match_Reference rl st f i j rf st' f' :
  rl !! i = Some rf → i ∈ j → sp_match rl st f i j = Ok (st', f') →
  t_Reference f' =
  if contains "switch" (r_action rf) then t_Reference f else r_ref rf.
Proof.
  intros Hrl Hij H. unfold sp_match in H.
  destruct (decide (i ∈ j)) as [_|Hn]; [|done].
  rewrite Hrl in H. cbn [Py.get_or mbind result_bind] in H.
  destruct (sp_reference f rf i (sp_matched st)) as [[f1 m1] n1] eqn:E1.
  assert (R1 : t_Reference f1 = if contains "switch" (r_action rf)
                                then t_Reference f else r_ref rf).
  { unfold sp_reference in E1.
    destruct (contains "switch" (r_action rf)); by injection E1 as <- _ _. }
  set (f2 := if truthy_str (t_Name f1) then f1 else set_Name f1 (r_name rf))
    in H.
  assert (R2 : t_Reference f2 = t_Reference f1)
    by (unfold f2; by destruct (truthy_str (t_Name f1))).
  pose proof (sp_elevation_Reference f2 rf n1) as R3.
  destruct (sp_elevation f2 rf n1) as [f3 n3]. simpl in R3.
  pose proof (sp_col_Reference f3 rf n3) as R4.
  destruct (sp_col f3 rf n3) as [f4 n4]. simpl in R4.
  cbn in H. injection H as <- <-.
  destruct (write_notes_fields (update_prominence f4) n4) as (_ & _ & _ & R5 & _).
  destruct (update_prominence_fields f4) as (_ & _ & _ & R6 & _).
  by rewrite R5, R6, R4, R3, R2, R1.
Qed.

(** Claim C8, as the code has it. Key mode suppresses the propagation of
    a matched entry's [ref] only when its action contains ["move"];
    spatial mode only when it contains ["switch"]. *)
Theorem reference_markers :
  (∀ (reference : list ref_entry) (f : tfeature) (rf : ref_entry),
     build_refs reference !! t_ID f = Some rf →
     t_Reference (key_update (build_refs reference) f) =
     if contains "move" (r_action rf) then t_Reference f else r_ref rf) ∧
  (∀ (rl : list ref_entry) (st : sp_state) (f : tfeature) (i : nat)
     (j : list nat) (rf : ref_entry) (st' : sp_state) (f' : tfeature),
     rl !! i = Some rf → i ∈ j → sp_match rl st f i j = Ok (st', f') →
     t_Reference f' =
     if contains "switch" (r_action rf) then t_Reference f else r_ref rf).
Proof.
  split.
  - intros reference f rf. apply key_update_Reference.
  - intros rl st f i j rf st' f'. apply sp_match_Reference.
Qed.

(** *** The notes of a partial match *)

(** Claim C9. When the summit query finds reference entry [i] but the col
    query does not return it, [notes] is read without being assigned on
    that path: the step fails with [UnboundLocalError] if no earlier
    record assigned it, and otherwise writes the earlier record's notes.
    On the sample, [sB]'s summit is within the tolerance of [rB]'s but
    its col is not: alone it fails, after [sA] it gets [sA]'s notes
    ["check"] in place of its own ["x"]. *)
Theorem spatial_notes_unbound :
  (∀ (rl : list ref_entry) (st : sp_state) (f : tfeature) (i : nat)
     (j : list nat),
     i ∉ j →
     sp_match rl st f i j =
     match sp_notes st with
     | None => Err UnboundLocalError
     | Some notes =>
         Ok (SpState (sp_matched st) (<[i := t_ID f]> (sp_candidate st))
               (sp_notes st), write_notes (update_prominence f) notes)
     end) ∧
  nearestNeighbor (ref_anchor_index (ref_list [Examples.rA; Examples.rB]))
    (fst (t_geom Examples.sB)) 1 tol_summit = [1] ∧
  nearestNeighbor (ref_col_index (ref_list [Examples.rA; Examples.rB]))
    (snd (t_geom Examples.sB)) 1 tol_col = [] ∧
  spatial_run [Examples.sB] [Examples.rA; Examples.rB] = Err UnboundLocalError ∧
  ∃ out rem,
    spatial_run [Examples.sA; Examples.sB] [Examples.rA; Examples.rB]
      = Ok (out, rem) ∧
    t_Notes Examples.sB = Some "x" ∧
    map t_Notes out = [Some "check"; Some "check"].
Proof.
  split.
  { intros rl st f i j Hn. unfold sp_match.
    destruct (decide (i ∈ j)) as [Hi|_]; [done|].
    cbn. by destruct (sp_notes st). }
  split; [vm_compute; reflexivity|].
  split; [vm_compute; reflexivity|].
  split; [vm_compute; reflexivity|].
  eexists (match spatial_run [Examples.sA; Examples.sB] [Examples.rA; Examples.rB]
           with Ok p => p.1 | Err _ => [] end).
  eexists (match spatial_run [Examples.sA; Examples.sB] [Examples.rA; Examples.rB]
           with Ok p => p.2 | Err _ => [] end).
  split; [vm_compute; reflexivity|]. split; vm_compute; reflexivity.
Qed.

(** *** Key-mode output order *)

Lemma string_compare_lt_trans s1 s2 s3 :
  String.compare s1 s2 = Lt → String.compare s2 s3 = Lt →
  String.compare s1 s3 = Lt.
Proof.
  revert s2 s3. induction s1 as [|a s1 IH]; intros [|b s2] [|c s3]; simpl;
    try done.
  destruct (Ascii.compare a b) eqn:E1; try done;
    destruct (Ascii.compare b c) eqn:E2; try done.
  - apply Ascii.compare_eq_iff in E1, E2. subst.
    unfold Ascii.compare. rewrite N.compare_refl. apply IH.
  - apply Ascii.compare_eq_iff in E1. subst. by rewrite E2.
  - apply Ascii.compare_eq_iff in E2. subst. by rewrite E1.
  - unfold Ascii.compare in *. intros _ _.
    pose proof (proj1 (N.compare_lt_iff _ _) E1).
    pose proof (proj1 (N.compare_lt_iff _ _) E2).
    assert (E : (N_of_ascii a ?= N_of_ascii c)%N = Lt)
      by (apply N.compare_lt_iff; lia).
    by rewrite E.
Qed.

Lemma key_lt_asym a b : key_lt a b = true → key_lt b a = false.
Proof.
  destruct a as [x|x], b as [y|y]; simpl; try done.
  - unfold String.ltb. rewrite (String.compare_antisym y x).
    by destruct (String.compare x y).
  - intros H. apply Z.ltb_lt in H. apply Z.ltb_ge. lia.
Qed.

Lemma key_lt_trans a b c :
  key_lt a b = true → key_lt b c = true → key_lt a c = true.
Proof.
  destruct a as [x|x], b as [y|y], c as [z|z]; simpl; try done.
  - unfold String.ltb.
    destruct (String.compare x y) eqn:E1; try done.
    destruct (String.compare y z) eqn:E2; try done.
    by rewrite (string_compare_lt_trans x y z).
  - rewrite !Z.ltb_lt. lia.
Qed.

Lemma sort_key_inl f r :
  sort_key f = Ok (inl r) → t_Reference f = Some r ∧ truthy_str (Some r) = true.
Proof.
  unfold sort_key. destruct (t_Reference f) as [r'|].
  - destruct (truthy_str (Some r')) eqn:E.
    + intros H. by injection H as ->.
    + by destruct (t_Prominence f).
  - by destruct (t_Prominence f).
Qed.

Lemma sort_key_inr f z :
  sort_key f = Ok (inr z) →
  truthy_str (t_Reference f) = false ∧ t_Prominence f = Some (- z)%Z.
Proof.
  unfold sort_key. destruct (t_Reference f) as [r'|].
  - destruct (truthy_str (Some r')) eqn:E; [done|].
    destruct (t_Prominence f) as [p|]; [|done].
    intros H. injection H as <-. split; [done|]. f_equal. lia.
  - destruct (t_Prominence f) as [p|]; [|done].
    intros H. injection H as <-. split; [done|]. f_equal. lia.
Qed.

Lemma Forall2_zip_elem {A B} (P : A -> B -> Prop) l k x y :
  Forall2 P l k → (y, x) ∈ zip k l → P x y.
Proof.
  intros H. revert x y. induction H as [|a b l k Hab H IH]; intros x y Hin;
    simpl in Hin.
  - by apply elem_of_nil in Hin.
  - apply elem_of_cons in Hin as [Heq|Hin]; [|by apply IH].
    by injection Heq as -> ->.
Qed.

Lemma set_fid_set_fid f i j : set_fid (set_fid f i) j = set_fid f j.
Proof. by destruct f. Qed.

(** Claim C10. The key-mode output is the updated source records (up to
    [fid]), the record at position [p] has [fid = p], and along the
    output: records with a truthy [Reference] come first, ordered by
    ascending [Reference], then the others by descending [Prominence]. *)
Theorem key_run_order (source : list tfeature) (reference : list ref_entry)
  (out : list tfeature) (Hrun : key_run source reference = Ok out) :
  map (fun g => set_fid g 0) out ≡ₚ
    map (fun g => set_fid g 0) (map (key_update (build_refs reference)) source) ∧
  (∀ p g, out !! p = Some g → t_fid g = p) ∧
  (∀ p q g h, p < q → out !! p = Some g → out !! q = Some h →
     (truthy_str (t_Reference h) = true → truthy_str (t_Reference g) = true) ∧
     (truthy_str (t_Reference g) = true → truthy_str (t_Reference h) = true →
        ∃ rg rh, t_Reference g = Some rg ∧ t_Reference h = Some rh ∧
                 String.leb rg rh = true) ∧
     (truthy_str (t_Reference g) = false → truthy_str (t_Reference h) = false →
        ∃ a b, t_Prominence g = Some a ∧ t_Prominence h = Some b ∧ (b <= a)%Z)).
Proof.
  unfold key_run in Hrun.
  set (features := map (key_update (build_refs reference)) source) in *.
  destruct (mapM sort_key features) as [keys|e] eqn:Hk; cbn in Hrun; [|done].
  injection Hrun as <-.
  apply mapM_Ok in Hk.
  set (before := fun a b : (string + Z) * tfeature => key_lt (fst a) (fst b)).
  set (sorted := Py.sorted_by before (zip keys features)).
  assert (Hkey : ∀ kf, kf ∈ sorted → sort_key (snd kf) = Ok (fst kf)).
  { intros [k f] Hin. unfold sorted in Hin. rewrite sorted_by_perm in Hin.
    by apply (Forall2_zip_elem _ _ _ _ _ Hk Hin). }
  assert (Hs : StronglySorted (Py.not_after before) sorted).
  { apply sorted_by_sorted.
    - intros x y. apply key_lt_asym.
    - intros x y z. apply key_lt_trans. }
  fold before sorted.
  split.
  { rewrite fmap_imap.
    rewrite (imap_ext _ (const (fun kf => set_fid (snd kf) 0))).
    2:{ intros i x _. simpl. apply set_fid_set_fid. }
    rewrite imap_const. unfold sorted. rewrite sorted_by_perm.
    rewrite <-(snd_zip keys features) at 2.
    - by rewrite <-list_fmap_compose.
    - apply Forall2_length in Hk. lia. }
  split.
  { intros p g Hp. apply list_lookup_imap_Some in Hp as (kf & _ & ->).
    by destruct kf as [k []]. }
  intros p q g h Hpq Hp Hq.
  apply list_lookup_imap_Some in Hp as ([kg g0] & Hp & ->).
  apply list_lookup_imap_Some in Hq as ([kh h0] & Hq & ->).
  pose proof (StronglySorted_lookup _ _ _ _ _ _ Hs Hpq Hp Hq) as Hna.
  unfold Py.not_after, before in Hna. simpl in Hna.
  pose proof (Hkey _ (list_elem_of_lookup_2 _ _ _ Hp)) as Kg.
  pose proof (Hkey _ (list_elem_of_lookup_2 _ _ _ Hq)) as Kh.
  simpl in Kg, Kh.
  assert (Hg : ∀ i, t_Reference (set_fid g0 i) = t_Reference g0 ∧
                   t_Prominence (set_fid g0 i) = t_Prominence g0)
    by (by destruct g0).
  assert (Hh : ∀ i, t_Reference (set_fid h0 i) = t_Reference h0 ∧
                   t_Prominence (set_fid h0 i) = t_Prominence h0)
    by (by destruct h0).
  rewrite !(proj1 (Hg _)), !(proj2 (Hg _)), !(proj1 (Hh _)), !(proj2 (Hh _)).
  destruct kg as [rg|zg], kh as [rh|zh]; simpl in Hna.
  - apply sort_key_inl in Kg as [-> Tg]. apply sort_key_inl in Kh as [-> Th].
    split; [done|]. split; [|by rewrite Tg].
    intros _ _. exists rg, rh. split; [done|]. split; [done|].
    unfold String.leb. unfold String.ltb in Hna.
    rewrite (String.compare_antisym rg rh).
    by destruct (String.compare rh rg).
  - apply sort_key_inl in Kg as [-> Tg].
    apply sort_key_inr in Kh as [Th ->].
    split; [done|]. split; [by rewrite Th|by rewrite Tg].
  - done.
  - apply sort_key_inr in Kg as [Tg ->]. apply sort_key_inr in Kh as [Th ->].
    split; [by rewrite Th|]. split; [by rewrite Tg|].
    intros _ _. eexists _, _. split; [done|]. split; [done|].
    apply Z.ltb_ge in Hna. lia.
Qed.

(** *** Samples *)

Section Samples.
Import Examples.

(** [kr "check"] is found under [kf]'s [ID]; its notes are the action and
    the non-decimal elevation override. *)
Lemma key_update_fills_witness :
  build_refs [kr "check"] !! t_ID kf = Some (kr "check") ∧
  t_Notes (key_update (build_refs [kr "check"]) kf) = Some "check; ele:abc".
Proof.
  assert (H : build_refs [kr "check"] !! t_ID kf = Some (kr "check"))
    by (vm_compute; reflexivity).
  split; [exact H|].
  pose proof (key_update_fills [kr "check"] kf (kr "check") H) as HW.
  cbv zeta in HW. destruct HW as (_ & _ & _ & HN & _).
  rewrite HN. vm_compute. reflexivity.
Defined.

(** Counterexample to C7 as stated: the present [Reference] ["R1"] of
    [kf] is overwritten with ["R2"], and its present [Notes] ["old"] are
    replaced by ["check; ele:abc"]: the non-decimal override ["abc"] is
    not appended to the existing notes. *)
Lemma key_notes_replaced :
  t_Reference kf = Some "R1" ∧ t_Notes kf = Some "old" ∧
  ∃ g, key_run [kf] [kr "check"] = Ok [g] ∧
       t_Reference g = Some "R2" ∧ t_Notes g = Some "check; ele:abc".
Proof.
  split; [reflexivity|]. split; [reflexivity|].
  exists (match key_run [kf] [kr "check"] with
          | Ok (g :: _) => g | _ => kf end).
  vm_compute. auto.
Qed.

(** Both parts of C8 at concrete inputs: key mode with action ["switch"]
    propagates ["R2"], spatial mode with action ["move"] propagates
    ["R9"]. *)
Lemma reference_markers_witness :
  (build_refs [kr "switch"] !! t_ID kf = Some (kr "switch") ∧
   t_Reference (key_update (build_refs [kr "switch"]) kf) = Some "R2") ∧
  ([rM] !! 0 = Some rM ∧ 0 ∈ [0] ∧
   Topo.sp_match [rM] sp_init fM 0 [0] = Ok (spM.1, spM.2) ∧
   t_Reference spM.2 = Some "R9").
Proof.
  assert (H1 : build_refs [kr "switch"] !! t_ID kf = Some (kr "switch"))
    by (vm_compute; reflexivity).
  assert (H2 : Topo.sp_match [rM] sp_init fM 0 [0] = Ok (spM.1, spM.2))
    by (vm_compute; reflexivity).
  assert (H3 : 0 ∈ [0]) by (apply list_elem_of_In; vm_compute; auto).
  split.
  - split; [exact H1|].
    rewrite (proj1 reference_markers _ _ _ H1). vm_compute. reflexivity.
  - split; [reflexivity|]. split; [exact H3|]. split; [exact H2|].
    rewrite (proj2 reference_markers [rM] sp_init fM 0 [0] rM _ _
               (eq_refl _) H3 H2).
    vm_compute. reflexivity.
Defined.

(** Counterexample to C8 as stated: in key mode a ["switch"] entry still
    sets [Reference] (["R1"] becomes ["R2"]), and in spatial mode a
    ["move"] entry sets [Reference] to its ["R9"]. *)
Lemma switch_in_key_mode :
  (∃ g, key_run [kf] [kr "switch"] = Ok [g] ∧ t_Reference g = Some "R2") ∧
  (∃ out rem, spatial_run [fM] [rM] = Ok (out, rem) ∧
     map t_Reference out = [Some "R9"]).
Proof.
  split.
  - exists (match key_run [kf] [kr "switch"] with
            | Ok (g :: _) => g | _ => kf end).
    vm_compute. auto.
  - exists (match spatial_run [fM] [rM] with Ok p => p.1 | Err _ => [] end).
    exists (match spatial_run [fM] [rM] with Ok p => p.2 | Err _ => [] end).
    vm_compute. auto.
Qed.

(** C9 at a concrete input: [sB] against entry 1 with no col match and no
    earlier notes. *)
Lemma spatial_notes_unbound_witness :
  (1 ∉ ([] : list nat)) ∧
  Topo.sp_match (ref_list [rA; rB]) sp_init sB 1 [] = Err UnboundLocalError.
Proof.
  assert (H : 1 ∉ ([] : list nat)) by (apply not_elem_of_nil).
  split; [exact H|].
  rewrite (proj1 spatial_notes_unbound _ _ _ _ _ H). reflexivity.
Defined.

(** C10 on three records: the one with a [Reference] first, then by
    descending [Prominence] 300, 100. *)
Lemma key_run_order_witness :
  key_run k3 k3refs = Ok outk3 ∧
  map t_ID outk3 = ["S0003"; "S0002"; "S0001"] ∧
  map t_fid outk3 = [0; 1; 2] ∧
  (∀ p g, outk3 !! p = Some g → t_fid g = p).
Proof.
  assert (H : key_run k3 k3refs = Ok outk3) by (vm_compute; reflexivity).
  split; [exact H|]. split; [vm_compute; reflexivity|].
  split; [vm_compute; reflexivity|].
  exact (proj1 (proj2 (key_run_order k3 k3refs outk3 H))).
Defined.

End Samples.
End TopoTheorems.


(** * Further properties of the merge and of the matching *)

(** Generic facts about folds that insert into a map. *)
Module FoldFacts.

Lemma fold_left_ext_fun {A B} (f g : A -> B -> A) l a :
  (∀ x y, f x y = g x y) → fold_left f l a = fold_left g l a.
Proof. intros H. revert a. induction l as [|x l IH]; intros a; simpl; [done|]. by rewrite H. Qed.

Lemma fold_insert_lookup {A K V} `{Countable K} (key : A -> option K)
  (val : A -> V) (l : list A) k v :
  fold_left (fun acc x => match key x with
                          | Some k' => <[k' := val x]> acc
                          | None => acc
                          end) l (∅ : gmap K V) !! k = Some v ↔
  ∃ q x, l !! q = Some x ∧ key x = Some k ∧ val x = v ∧
    ∀ q' x', q < q' → l !! q' = Some x' → key x' ≠ Some k.
Proof.
  induction l as [|x l IH] using rev_ind.
  { simpl. rewrite lookup_empty. split; [done|]. by intros (q & x & Hq & _). }
  rewrite fold_left_app. simpl.
  assert (Hlast : (l ++ [x])%list !! length l = Some x)
    by (rewrite lookup_app_r, Nat.sub_diag by lia; done).
  assert (Hl : ∀ q y, (l ++ [x])%list !! q = Some y ↔
             l !! q = Some y ∨ (q = length l ∧ y = x)).
  { intros q y. rewrite lookup_app_Some, list_lookup_singleton_Some.
    split; [intros [H1|(H1 & H2 & <-)]; [by left|right; split; [lia|done]]|].
    intros [H1|(-> & ->)]; [by left|right; split; [lia|split; [lia|done]]]. }
  destruct (key x) as [k'|] eqn:Ek;
    [destruct (decide (k = k')) as [<-|Hne]|].
  - rewrite lookup_insert_Some. split.
    + intros [[_ <-]|[[] _]]; [|done].
      exists (length l), x. repeat split; try done.
      intros q' x' Hq' Hx'. apply Hl in Hx' as [Hx'|[-> _]]; [|lia].
      apply lookup_lt_Some in Hx'. lia.
    + intros (q & y & Hq & Hy & Hv & Hlt). left. split; [done|].
      apply Hl in Hq as [Hq|[-> ->]]; [|done].
      exfalso. apply lookup_lt_Some in Hq. by apply (Hlt _ x Hq Hlast).
  - rewrite lookup_insert_Some, IH. split.
    + intros [[-> _]|[_ (q & y & Hq & Hy & Hv & Hlt)]]; [done|].
      exists q, y. split; [apply Hl; by left|]. do 2 (split; [done|]).
      intros q' x' Hq' Hx'. apply Hl in Hx' as [Hx'|[_ ->]].
      * by apply (Hlt q').
      * rewrite Ek. congruence.
    + intros (q & y & Hq & Hy & Hv & Hlt). right. split; [done|].
      apply Hl in Hq as [Hq|[_ ->]]; [|congruence].
      exists q, y. do 3 (split; [done|]).
      intros q' x' Hq' Hx'. apply (Hlt q'); [done|]. apply Hl. by left.
  - rewrite IH. split.
    + intros (q & y & Hq & Hy & Hv & Hlt).
      exists q, y. split; [apply Hl; by left|]. do 2 (split; [done|]).
      intros q' x' Hq' Hx'. apply Hl in Hx' as [Hx'|[_ ->]].
      * by apply (Hlt q').
      * by rewrite Ek.
    + intros (q & y & Hq & Hy & Hv & Hlt).
      apply Hl in Hq as [Hq|[_ ->]]; [|congruence].
      exists q, y. do 3 (split; [done|]).
      intros q' x' Hq' Hx'. apply (Hlt q'); [done|]. apply Hl. by left.
Qed.

End FoldFacts.

Module MergeExtras.
Import Spatial Merge PyFacts SpatialFacts MergeTheorems FoldFacts.

(** ** Identifiers and links *)
Section Identifiers.
Local Open Scope string_scope.

Lemma list_ascii_append s t :
  list_ascii_of_string (String.append s t) =
  (list_ascii_of_string s ++ list_ascii_of_string t)%list.
Proof. induction s as [|a s IH]; simpl; [done|]. by rewrite IH. Qed.

Lemma parse_fold_uint u acc :
  fold_left (fun acc a => 10 * acc + Z.of_nat (nat_of_ascii a - 48))%Z
    (list_ascii_of_string (Py.string_of_uint u)) (Z.of_nat acc)
  = Z.of_nat (Nat.of_uint_acc u acc).
Proof.
  revert acc; induction u as [|u IH|u IH|u IH|u IH|u IH|u IH|u IH|u IH|u IH|u IH];
    intros acc; simpl; [done|..];
    rewrite <-IH; f_equal; rewrite ?Nat.tail_mul_spec; simpl; lia.
Qed.

Lemma list_ascii_concat_empty (l : list string) :
  list_ascii_of_string (String.concat "" l) =
  List.concat (map list_ascii_of_string l).
Proof.
  induction l as [|s l IH]; [done|].
  destruct l as [|t l].
  - simpl. by rewrite app_nil_r.
  - change (String.concat "" (s :: t :: l)) with
      (String.append s (String.append "" (String.concat "" (t :: l)))).
    rewrite !list_ascii_append, IH. done.
Qed.

Lemma list_ascii_zeros k :
  list_ascii_of_string (String.concat "" (List.repeat "0" k)) = List.repeat "0"%char k.
Proof.
  rewrite list_ascii_concat_empty.
  induction k as [|k IH]; simpl; [done|]. by rewrite IH.
Qed.

Lemma parse_fold_zeros k :
  fold_left (fun acc a => 10 * acc + Z.of_nat (nat_of_ascii a - 48))%Z
    (List.repeat "0"%char k) 0%Z = 0%Z.
Proof. induction k as [|k IH]; simpl; [done|]. exact IH. Qed.

Lemma parse_format04 n : Topo.parse_int (Py.format04 n) = Z.of_nat n.
Proof.
  unfold Topo.parse_int, Py.format04.
  rewrite list_ascii_append, fold_left_app, list_ascii_zeros, parse_fold_zeros.
  unfold Py.string_of_nat. change 0%Z with (Z.of_nat 0).
  rewrite parse_fold_uint. f_equal. apply DecimalNat.Unsigned.of_to.
Qed.

Lemma fmt_id_inj i j : fmt_id i = fmt_id j → i = j.
Proof.
  unfold fmt_id. intros H.
  assert (E : Py.format04 (i + 1) = Py.format04 (j + 1)).
  { change (String "S" (Py.format04 (i + 1)) =
            String "S" (Py.format04 (j + 1))) in H.
    by injection H. }
  apply (f_equal Topo.parse_int) in E. rewrite !parse_format04 in E. lia.
Qed.

Lemma NoDup_map_inj {A B} (f : A -> B) (l : list A) :
  (∀ x y, f x = f y → x = y) → NoDup l → NoDup (map f l).
Proof.
  intros Hf Hl. rewrite NoDup_alt. intros i j y Hi Hj.
  change (map f l) with (f <$> l) in Hi, Hj.
  apply list_lookup_fmap_Some in Hi as (x1 & -> & H1).
  apply list_lookup_fmap_Some in Hj as (x2 & E & H2).
  apply Hf in E as ->. by apply (NoDup_lookup l i j x2).
Qed.

Lemma NoDup_Forall2_inj {A B} (R : A -> B -> Prop) l l' :
  Forall2 R l l' → (∀ x1 x2 y, R x1 y → R x2 y → x1 = x2) →
  NoDup l → NoDup l'.
Proof.
  intros HR Hinj Hl. rewrite NoDup_alt. intros i j y Hi Hj.
  destruct (Forall2_lookup_r _ _ _ _ _ HR Hi) as (x1 & H1 & R1).
  destruct (Forall2_lookup_r _ _ _ _ _ HR Hj) as (x2 & H2 & R2).
  rewrite (Hinj _ _ _ R1 R2) in H1. by apply (NoDup_lookup l i j x2).
Qed.

Lemma inverse_index_NoDup order : NoDup (inverse_index order).
Proof.
  unfold inverse_index. rewrite sorted_by_perm.
  unfold Py.enumerate. change (map fst (zip (seq 0 (length order)) order))
    with ((zip (seq 0 (length order)) order).*1).
  rewrite fst_zip by (rewrite length_seq; lia). apply NoDup_seq.
Qed.

Lemma resolve_NoDup fmap index xs ms :
  NoDup index → resolve fmap index xs = Ok ms → NoDup ms.
Proof.
  intros Hix. unfold resolve. destruct xs as [|x xs].
  { intros H. injection H as <-. constructor. }
  destruct (mapM _ (x :: xs)) as [js|e]; cbn; [|done].
  destruct (mapM _ (remove_dups js)) as [ms'|e] eqn:E; cbn; [|done].
  intros H. injection H as <-. apply NoDup_map_inj; [apply fmt_id_inj|].
  apply mapM_Ok in E. eapply NoDup_Forall2_inj; [exact E| |apply NoDup_remove_dups].
  intros j1 j2 m H1 H2. unfold Py.get_or in H1, H2.
  destruct (index !! j1) eqn:E1; [|done]. destruct (index !! j2) eqn:E2; [|done].
  injection H1 as ->. injection H2 as ->. by apply (NoDup_lookup index j1 j2 m).
Qed.

(** A successful merge gives each output summit its own identifier:
    the [ID] values [S0001], [S0002], ... of the output are pairwise
    distinct. *)
Theorem merge_ids_distinct (layers : list layer) (distance : Q)
  (out : list out_feature) (Hrun : processAlgorithm layers distance = Ok out) :
  NoDup (map o_ID out).
Proof.
  unfold processAlgorithm in Hrun.
  destruct (configure layers) as [ll|e]; cbn in Hrun; [|done].
  unfold merge_summits in Hrun.
  destruct (aggregate _ _ _ _) as [features fmap].
  destruct (rank_lookup _ _ _ Hrun) as [_ Hl].
  rewrite NoDup_alt. intros i j s Hi Hj.
  change (map o_ID out) with (o_ID <$> out) in Hi, Hj.
  apply list_lookup_fmap_Some in Hi as (o1 & -> & H1).
  apply list_lookup_fmap_Some in Hj as (o2 & E & H2).
  destruct (Hl _ _ H1) as (? & ? & _ & _ & _ & I1 & _).
  destruct (Hl _ _ H2) as (? & ? & _ & _ & _ & I2 & _).
  rewrite I1, I2 in E. by apply fmt_id_inj.
Qed.

(** In a successful merge, no output summit lists the same identifier
    twice in its [Merge] field or twice in its [Cross] field. *)
Theorem merge_links_distinct (layers : list layer) (distance : Q)
  (out : list out_feature) (Hrun : processAlgorithm layers distance = Ok out) :
  ∀ o, o ∈ out → NoDup (o_merge o) ∧ NoDup (o_cross o).
Proof.
  unfold processAlgorithm in Hrun.
  destruct (configure layers) as [ll|e]; cbn in Hrun; [|done].
  unfold merge_summits in Hrun.
  destruct (aggregate _ _ _ _) as [features fmap].
  destruct (rank_lookup _ _ _ Hrun) as [_ Hl].
  intros o Ho. apply list_elem_of_lookup in Ho as [p Hp].
  destruct (Hl _ _ Hp) as (j & f & _ & _ & _ & _ & _ & _ & Hm & Hc).
  split; eapply resolve_NoDup; try eassumption; apply inverse_index_NoDup.
Qed.

Lemma ll_lookup_set_None ll k l t :
  ll_lookup (ll_set ll k l) t = None ↔ ll_lookup ll t = None.
Proof.
  rewrite ll_lookup_set. destruct (String.eqb t k); [|done].
  by destruct (ll_lookup ll t).
Qed.

Lemma config_step_lookup ll l ll' :
  config_step ll l = Ok ll' →
  (∀ t, ll_lookup ll' t = None ↔ ll_lookup ll t = None) ∧
  (∀ t l', ll_lookup ll' t = Some (Some l') ↔
     ll_lookup ll t = Some (Some l') ∨
     (l' = l ∧ layer_tag l = Some t ∧ ll_lookup ll t ≠ None)).
Proof.
  unfold config_step, layer_tag.
  destruct (re_search dem_tags (lname l)) as [m|]; [|done].
  destruct (ll_lookup ll (upper m)) as [[prev|]|] eqn:Hl.
  { destruct (ll_lookup ll m) as [[p'|]|]; done. }
  all: intros H; injection H as <-; split;
    [intros t; apply ll_lookup_set_None|].
  all: intros t l'; rewrite ll_lookup_set; simpl.
  all: destruct (String.eqb t (upper m)) eqn:Et;
    [apply String.eqb_eq in Et; subst t|].
  - rewrite Hl. simpl. split.
    + intros [= ->]. right. split; [done|]. split; [done|]. congruence.
    + intros [[=]|(-> & _ & _)]. done.
  - split; [by left|]. intros [H|(_ & [= <-] & _)]; [done|].
    by rewrite String.eqb_refl in Et.
  - rewrite Hl. simpl. split; [done|].
    intros [[=]|(_ & _ & H)]. done.
  - split; [by left|]. intros [H|(_ & [= <-] & _)]; [done|].
    by rewrite String.eqb_refl in Et.
Qed.

Lemma configure_from_lookup ll layers ll' :
  configure_from ll layers = Ok ll' →
  (∀ t, ll_lookup ll' t = None ↔ ll_lookup ll t = None) ∧
  (∀ t l', ll_lookup ll' t = Some (Some l') ↔
     ll_lookup ll t = Some (Some l') ∨
     (l' ∈ layers ∧ layer_tag l' = Some t ∧ ll_lookup ll t ≠ None)).
Proof.
  revert ll. induction layers as [|l ls IH]; intros ll H; simpl in H.
  { injection H as <-. split; [done|]. intros t l'.
    split; [by left|]. intros [?|(Hin & _)]; [done|].
    by apply elem_of_nil in Hin. }
  destruct (config_step ll l) as [ll1|e] eqn:Hs; cbn in H; [|done].
  destruct (config_step_lookup _ _ _ Hs) as [N1 S1].
  destruct (IH _ H) as [N2 S2].
  split; [intros t; by rewrite N2, N1|].
  intros t l'. rewrite S2, S1, elem_of_cons.
  assert (ll_lookup ll1 t ≠ None ↔ ll_lookup ll t ≠ None) as NN
    by (rewrite N1; done).
  rewrite NN. naive_solver.
Qed.

Lemma configure_from_keys ll layers ll' :
  configure_from ll layers = Ok ll' → map fst ll' = map fst ll.
Proof.
  revert ll. induction layers as [|l ls IH]; intros ll H; simpl in H.
  { by injection H as <-. }
  destruct (config_step ll l) as [ll1|e] eqn:Hs; cbn in H; [|done].
  rewrite (IH _ H). unfold config_step in Hs.
  destruct (re_search dem_tags (lname l)) as [m|]; [|done].
  destruct (ll_lookup ll (upper m)) as [[prev|]|].
  - destruct (ll_lookup ll m) as [[p'|]|]; done.
  - injection Hs as <-. apply keys_ll_set.
  - injection Hs as <-. apply keys_ll_set.
Qed.

Lemma ll_lookup_notin ll t : t ∉ map fst ll → ll_lookup ll t = None.
Proof.
  induction ll as [|[k v] ll IH]; simpl; [done|].
  rewrite elem_of_cons. intros Ht.
  destruct (String.eqb t k) eqn:E; [apply String.eqb_eq in E; tauto|].
  apply IH. tauto.
Qed.

Lemma ll_ext ll1 ll2 :
  map fst ll1 = map fst ll2 → NoDup (map fst ll1) →
  (∀ t, ll_lookup ll1 t = ll_lookup ll2 t) → ll1 = ll2.
Proof.
  revert ll2. induction ll1 as [|[k v] ll1 IH]; intros [|[k' v'] ll2] Hk Hn H;
    simpl in *; try done.
  injection Hk as <- Hk. apply NoDup_cons in Hn as [Hnk Hn].
  pose proof (H k) as Hv. rewrite String.eqb_refl in Hv. injection Hv as <-.
  f_equal. apply IH; [done|done|]. intros t.
  destruct (String.eqb t k) eqn:E.
  - apply String.eqb_eq in E as ->.
    rewrite !ll_lookup_notin; [done| |done]. by rewrite <-Hk.
  - pose proof (H t) as Ht. by rewrite E in Ht.
Qed.

Lemma NoDup_dem_tags : NoDup dem_tags.
Proof. apply (bool_decide_unpack _). vm_compute. reflexivity. Qed.

Lemma configure_lookup layers ll :
  configure layers = Ok ll →
  map fst ll = dem_tags ∧
  (∀ t, ll_lookup ll t = None ↔ t ∉ dem_tags) ∧
  (∀ t l, ll_lookup ll t = Some (Some l) ↔
     l ∈ layers ∧ layer_tag l = Some t ∧ t ∈ dem_tags).
Proof.
  intros H. unfold configure in H.
  split; [by rewrite (configure_from_keys _ _ _ H)|].
  destruct (configure_from_lookup _ _ _ H) as [N S].
  assert (E : ∀ t, ll_lookup empty_layer_list t = None ↔ t ∉ dem_tags).
  { intros t. split.
    - intros Hn Ht. by apply (ll_lookup_key empty_layer_list t); [exact Ht|].
    - intros Hn. apply ll_lookup_notin. exact Hn. }
  split; [intros t; by rewrite N, E|].
  intros t l. rewrite S.
  pose proof (empty_layer_list_free t l).
  assert (ll_lookup empty_layer_list t ≠ None ↔ t ∈ dem_tags).
  { rewrite E. split; [|tauto]. intros Hn. destruct (decide (t ∈ dem_tags)); tauto. }
  naive_solver.
Qed.

(** The order in which the layers are given does not matter: a
    permutation of layers that configure without error configures to the
    same layer list and gives the same merge result. *)
Theorem merge_layer_order (layers layers' : list layer) (distance : Q)
  (ll : layer_list) (Hcfg : configure layers = Ok ll)
  (Hperm : layers ≡ₚ layers') :
  configure layers' = Ok ll ∧
  processAlgorithm layers' distance = processAlgorithm layers distance.
Proof.
  assert (Hok : ∃ ll', configure layers' = Ok ll').
  { unfold configure in *. rewrite configure_from_ok by done.
    assert (Hex : ∃ ll', configure_from empty_layer_list layers = Ok ll')
      by eauto.
    rewrite configure_from_ok in Hex by done.
    destruct Hex as [HF HN]. split.
    - by rewrite <-Hperm.
    - by rewrite <-Hperm. }
  destruct Hok as [ll' Hcfg'].
  assert (ll' = ll) as ->.
  { destruct (configure_lookup _ _ Hcfg) as (K1 & N1 & S1).
    destruct (configure_lookup _ _ Hcfg') as (K2 & N2 & S2).
    apply ll_ext; [by rewrite K1, K2|rewrite K2; apply NoDup_dem_tags|].
    intros t. destruct (ll_lookup ll t) as [[l|]|] eqn:E.
    - apply S1 in E as (Hl & Ht & Hd). apply S2. by rewrite <-Hperm.
    - destruct (ll_lookup ll' t) as [[l|]|] eqn:E'.
      + apply S2 in E' as (Hl & Ht & Hd).
        assert (ll_lookup ll t = Some (Some l)) by (apply S1; by rewrite Hperm).
        congruence.
      + done.
      + apply N2 in E'. apply N1 in E'. congruence.
    - apply N1 in E. by rewrite (proj2 (N2 t) E). }
  split; [done|]. unfold processAlgorithm. by rewrite Hcfg, Hcfg'.
Qed.

End Identifiers.

(** ** Per-DEM values of a group *)

Lemma member_loop_elev summits sm cm pos m a :
  ga_elev (fold_left (member_step summits sm cm pos) m a) =
  fold_left (fun acc i => <[s_dem (summit_at summits i) :=
                             (s_ele (summit_at summits i),
                              s_col (summit_at summits i))]> acc)
    m (ga_elev a).
Proof. revert a. induction m as [|i m IH]; intros a; simpl; [done|]. apply IH. Qed.

Lemma aggregate_lookup summits sm cm dm fs fmap p f :
  (fold_left (aggregate_step summits sm cm) dm (fs, fmap)).1 !! p = Some f →
  fs !! p = Some f ∨
  (length fs ≤ p ∧ ∃ m fs' fmap', dm !! (p - length fs) = Some m ∧
     f = (aggregate_group summits sm cm fs' fmap' m).1).
Proof.
  revert fs fmap. induction dm as [|m dm IH]; intros fs fmap Hp; simpl in *.
  - by left.
  - replace (aggregate_step summits sm cm (fs, fmap) m) with
      ((fs ++ [(aggregate_group summits sm cm fs fmap m).1])%list,
       (aggregate_group summits sm cm fs fmap m).2) in Hp
      by (unfold aggregate_step; by destruct (aggregate_group _ _ _ _ _ _)).
    apply IH in Hp as [Hp|(Hle & m' & fs' & fmap' & Hm' & ->)].
    + apply lookup_app_Some in Hp as [Hp|(Hle & Hp)]; [by left|right].
      apply list_lookup_singleton_Some in Hp as [Hp <-].
      split; [lia|]. exists m, fs, fmap. split; [|done].
      by replace (p - length fs) with 0 by lia.
    + right. rewrite length_app in Hle, Hm'. simpl in Hle, Hm'.
      split; [lia|]. exists m', fs', fmap'. split; [|done].
      by replace (p - length fs) with (S (p - (length fs + 1))) by lia.
Qed.

(** The per-DEM values of an aggregated feature come from the members
    of its group: for each DEM, the elevation and col of the last member
    of the group from that DEM, and nothing for a DEM no member comes
    from. *)
Theorem aggregate_dem_values (summits : list summit) (sm cm : nat -> list nat)
  (dm : list (list nat)) (p : nat) (f : feature)
  (Hf : (aggregate summits sm cm dm).1 !! p = Some f) :
  ∃ m, dm !! p = Some m ∧
    ∀ d e c, f_elev f !! d = Some (e, c) ↔
      ∃ q i, m !! q = Some i ∧ s_dem (summit_at summits i) = d ∧
        s_ele (summit_at summits i) = e ∧ s_col (summit_at summits i) = c ∧
        ∀ q' i', q < q' → m !! q' = Some i' → s_dem (summit_at summits i') ≠ d.
Proof.
  apply aggregate_lookup in Hf as [Hf|(_ & m & fs' & fmap' & Hm & ->)];
    [done|].
  rewrite Nat.sub_0_r in Hm. exists m. split; [done|].
  intros d e c. unfold aggregate_group. simpl.
  rewrite member_loop_elev. simpl.
  pose proof (fold_insert_lookup (fun i => Some (s_dem (summit_at summits i)))
                (fun i => (s_ele (summit_at summits i), s_col (summit_at summits i)))
                m d (e, c)) as HL.
  simpl in HL. rewrite HL. split.
  - intros (q & i & Hq & Hd & Hv & Hlt). injection Hd as Hd. injection Hv as He Hc.
    exists q, i. repeat split; try done.
    intros q' i' Hq' Hi' Hd'. by apply (Hlt q' i'); [..|rewrite Hd'].
  - intros (q & i & Hq & Hd & He & Hc & Hlt).
    exists q, i. rewrite Hd, He, Hc. repeat split; try done.
    intros q' i' Hq' Hi' [=]. by apply (Hlt q' i').
Qed.

(** ** When the merge fails with ValueError *)

Lemma ll_lookup_elem ll t v : ll_lookup ll t = Some v → (t, v) ∈ ll.
Proof.
  induction ll as [|[k w] ll IH]; simpl; [done|].
  destruct (String.eqb t k) eqn:E.
  - apply String.eqb_eq in E as ->. intros [= ->]. by left.
  - intros H. right. by apply IH.
Qed.

Lemma elem_ll_lookup ll t v :
  NoDup (map fst ll) → (t, v) ∈ ll → ll_lookup ll t = Some v.
Proof.
  induction ll as [|[k w] ll IH]; simpl; intros Hnd Hin;
    [by apply elem_of_nil in Hin|].
  apply NoDup_cons in Hnd as [Hk Hnd].
  apply elem_of_cons in Hin as [Heq|Hin].
  - injection Heq as -> ->. by rewrite String.eqb_refl.
  - destruct (String.eqb t k) eqn:E; [|by apply IH].
    apply String.eqb_eq in E as ->. exfalso. apply Hk.
    apply list_elem_of_fmap. by exists (k, v).
Qed.

Lemma layer_tag_dem l t : layer_tag l = Some t → t ∈ dem_tags.
Proof.
  unfold layer_tag. destruct (re_search dem_tags (lname l)) as [m|] eqn:E;
    [|done].
  intros [= <-]. by apply upper_re_search with (lname l).
Qed.

Lemma configure_tag layers ll l :
  configure layers = Ok ll → l ∈ layers →
  ∃ t, layer_tag l = Some t ∧ t ∈ dem_tags.
Proof.
  intros Hcfg Hl.
  assert (Hex : ∃ ll', configure_from empty_layer_list layers = Ok ll')
    by (exists ll; exact Hcfg).
  apply configure_from_ok in Hex as [Hall _]; [|reflexivity].
  rewrite Forall_forall in Hall. destruct (Hall l Hl) as (t & Ht & _).
  exists t. split; [done|]. by apply layer_tag_dem with l.
Qed.

(** [summits] stays empty exactly when no feature of a configured layer
    has a geometry. *)
Lemma collect_summits_nil layers ll :
  configure layers = Ok ll →
  collect_summits ll = [] ↔
  ∀ l f, l ∈ layers → f ∈ lfeatures l → in_geom f = None.
Proof.
  intros Hcfg. destruct (configure_lookup _ _ Hcfg) as (Hkeys & _ & Hl).
  split.
  - intros Hnil l f Hly Hf.
    destruct (in_geom f) as [[gs gc]|] eqn:Eg; [exfalso|done].
    destruct (configure_tag _ _ _ Hcfg Hly) as (t & Ht & Htd).
    assert (Hll : (t, Some l) ∈ ll)
      by (by apply ll_lookup_elem, Hl).
    assert (Hs : Summit t (in_ele f) (in_col f) gs gc ∈ collect_summits ll).
    { unfold collect_summits. apply list_elem_of_bind.
      exists (t, Some l). split; [|done]. simpl.
      unfold layer_summits. apply list_elem_of_omap. exists f.
      split; [done|]. by rewrite Eg. }
    rewrite Hnil in Hs. by apply elem_of_nil in Hs.
  - intros Hnone.
    destruct (collect_summits ll) as [|s rest] eqn:E; [done|exfalso].
    assert (Hs : s ∈ collect_summits ll) by (rewrite E; by left).
    unfold collect_summits in Hs.
    apply list_elem_of_bind in Hs as ([t ol] & Hs & Htl).
    destruct ol as [l|]; simpl in Hs; [|by apply elem_of_nil in Hs].
    apply elem_ll_lookup in Htl; [|rewrite Hkeys; apply NoDup_dem_tags].
    apply Hl in Htl as (Hly & _ & _).
    unfold layer_summits in Hs.
    apply list_elem_of_omap in Hs as (f & Hf & Hg).
    by rewrite (Hnone l f Hly Hf) in Hg.
Qed.

Lemma aggregate_length summits sm cm dm features fmap :
  aggregate summits sm cm dm = (features, fmap) →
  length features = length dm.
Proof.
  unfold aggregate.
  assert (Hgen : ∀ fs fm,
    length (fold_left (aggregate_step summits sm cm) dm (fs, fm)).1 =
    length fs + length dm).
  { induction dm as [|m dm IH]; intros fs fm; simpl; [lia|].
    replace (aggregate_step summits sm cm (fs, fm) m) with
      ((fs ++ [(aggregate_group summits sm cm fs fm m).1])%list,
       (aggregate_group summits sm cm fs fm m).2)
      by (unfold aggregate_step; by destruct (aggregate_group _ _ _ _ _ _)).
    rewrite IH, length_app. simpl. lia. }
  intros H. pose proof (Hgen [] ∅) as L. rewrite H in L. simpl in L. lia.
Qed.

Lemma resolve_Err fmap index xs e :
  resolve fmap index xs = Err e → e = KeyError ∨ e = IndexError.
Proof.
  unfold resolve. destruct xs as [|x xs]; [done|].
  destruct (mapM _ (x :: xs)) as [js|e1] eqn:E1; cbn.
  - destruct (mapM _ (remove_dups js)) as [ms|e2] eqn:E2; cbn; [done|].
    intros [= <-]. apply mapM_Err in E2 as (j & _ & Hj).
    unfold Py.get_or in Hj. destruct (index !! j); [done|].
    injection Hj as <-. by right.
  - intros [= <-]. apply mapM_Err in E1 as (y & _ & Hy).
    unfold Py.get_or in Hy. destruct (fmap !! y); [done|].
    injection Hy as <-. by left.
Qed.

(** Ranking a non-empty list of features fails only on a lookup. *)
Lemma rank_Err f fs fmap e :
  rank (f :: fs) fmap = Err e → e = KeyError ∨ e = IndexError.
Proof.
  unfold rank. intros H. apply mapM_Err in H as ([i [j g]] & _ & Hx).
  simpl in Hx.
  destruct (resolve fmap _ (f_merge g)) as [mg|e1] eqn:E1; cbn in Hx.
  - destruct (resolve fmap _ (f_cross g)) as [cr|e2] eqn:E2; cbn in Hx;
      [done|].
    injection Hx as <-. by eapply resolve_Err.
  - injection Hx as <-. by eapply resolve_Err.
Qed.

Lemma self_neighbour summits distance i :
  i < length summits →
  i ∈ nbr_s summits distance i ∧ i ∈ nbr_c summits distance i.
Proof.
  intros Hi. unfold nbr_s, nbr_c, anchor_index, col_index.
  destruct (lookup_lt_is_Some_2 summits i Hi) as [r Hr].
  assert (Ha : summit_at summits i = r)
    by (unfold summit_at; by apply nth_lookup_Some).
  rewrite Ha. split; apply nearestNeighbor_self, list_elem_of_lookup;
    exists i; rewrite lookup_enumerate, list_lookup_fmap, Hr; reflexivity.
Qed.

(** From a list of summits on, the merge fails with ValueError exactly
    when the list is empty. *)
Lemma merge_summits_ValueError summits distance :
  merge_summits summits distance = Err ValueError ↔ summits = [].
Proof.
  split; [|intros ->; reflexivity].
  intros H. destruct (decide (summits = [])) as [|Hne]; [done|exfalso].
  assert (Hn : 0 < length summits) by (destruct summits; [done|simpl; lia]).
  unfold merge_summits in H. cbv zeta in H.
  set (s := nbr_s summits distance) in H.
  set (c := nbr_c summits distance) in H.
  set (dm := Grouping.groups (Grouping.build s c (seq 0 (length summits))))
    in H.
  assert (Hg : dm ≠ []).
  { destruct (GroupingFacts.build_spec s c (seq 0 (length summits)))
      as [_ Heq].
    assert (H0 : 0 ∈ Grouping.mutual (s 0) (c 0))
      by (apply GroupingTheorems.elem_of_mutual, self_neighbour; lia).
    assert (H00 : Grouping.same_group
                    (Grouping.build s c (seq 0 (length summits))) 0 0).
    { apply Heq, t_step. exists 0.
      split; [apply elem_of_seq; lia|]. by split. }
    destruct H00 as (t & Ht & _). intros Hnil.
    assert (Hin : t ∈ dm)
      by (apply GroupingTheorems.elem_of_groups; by exists 0).
    rewrite Hnil in Hin. by apply elem_of_nil in Hin. }
  destruct (aggregate _ _ _ dm) as [features fmap] eqn:Ea.
  apply aggregate_length in Ea.
  destruct features as [|f fs].
  - apply Hg, nil_length_inv. by symmetry.
  - apply rank_Err in H as [|]; discriminate.
Qed.

(** For layers that configure without error, the merge fails with
    ValueError if and only if no feature of any layer has a geometry, so
    that no summit is read. *)
Theorem merge_no_summits (layers : list layer) (distance : Q)
  (ll : layer_list) (Hcfg : configure layers = Ok ll) :
  processAlgorithm layers distance = Err ValueError ↔
  ∀ l f, l ∈ layers → f ∈ lfeatures l → in_geom f = None.
Proof.
  unfold processAlgorithm. rewrite Hcfg. cbn [mbind result_bind].
  rewrite merge_summits_ValueError. by apply collect_summits_nil.
Qed.

(** Every summit is among its own neighbours: record [i] is in the
    anchor index's answer for its own summit point and in the col
    index's answer for its own col point, so [i] is one of its own
    confirmed mutual matches. *)
Theorem merge_self_neighbour (summits : list summit) (distance : Q) (i : nat)
  (Hi : i < length summits) :
  i ∈ nbr_s summits distance i ∧ i ∈ nbr_c summits distance i.
Proof.
  unfold nbr_s, nbr_c, anchor_index, col_index.
  destruct (lookup_lt_is_Some_2 summits i Hi) as [r Hr].
  unfold summit_at. rewrite (nth_lookup_Some summits i dummy_summit r Hr).
  split; apply nearestNeighbor_self, list_elem_of_lookup;
    exists i; rewrite lookup_enumerate, list_lookup_fmap, Hr; reflexivity.
Qed.

Section Samples.
Import Examples.
Local Open Scope string_scope.

(** Three isolated summits read from one layer merge into three
    features, with distinct identifiers. *)
Lemma merge_ids_distinct_witness :
  processAlgorithm layer_peaks3 (inject_Z 5) = Ok out_peaks3 ∧
  map o_ID out_peaks3 = ["S0001"; "S0002"; "S0003"] ∧
  NoDup (map o_ID out_peaks3).
Proof.
  assert (H : processAlgorithm layer_peaks3 (inject_Z 5) = Ok out_peaks3)
    by (vm_compute; reflexivity).
  split; [exact H|]. split; [vm_compute; reflexivity|].
  exact (merge_ids_distinct _ _ _ H).
Defined.

Lemma merge_links_distinct_witness :
  processAlgorithm layers3 (inject_Z 5) = Ok out_layers3 ∧
  ∀ o, o ∈ out_layers3 → NoDup (o_merge o) ∧ NoDup (o_cross o).
Proof.
  assert (H : processAlgorithm layers3 (inject_Z 5) = Ok out_layers3)
    by (vm_compute; reflexivity).
  split; [exact H|]. exact (merge_links_distinct _ _ _ H).
Defined.

(** A layer whose one feature has no geometry configures, and the
    merge fails with ValueError; the three-layer sample, whose features
    have geometries, does not fail with ValueError. *)
Lemma merge_no_summits_witness :
  configure nogeom_srtm = Ok ll_nogeom_srtm ∧
  processAlgorithm nogeom_srtm (inject_Z 5) = Err ValueError ∧
  configure layers3 = Ok ll3 ∧
  processAlgorithm layers3 (inject_Z 5) ≠ Err ValueError.
Proof.
  assert (H1 : configure nogeom_srtm = Ok ll_nogeom_srtm)
    by (vm_compute; reflexivity).
  assert (H3 : configure layers3 = Ok ll3) by (vm_compute; reflexivity).
  split; [exact H1|]. split.
  - apply (merge_no_summits _ (inject_Z 5) _ H1).
    intros l f Hl Hf. apply list_elem_of_singleton in Hl as ->.
    apply list_elem_of_singleton in Hf as ->. reflexivity.
  - split; [exact H3|]. intros Herr.
    pose proof (proj1 (merge_no_summits _ (inject_Z 5) _ H3) Herr) as Hall.
    assert (Hg : in_geom (feat 0 0 0 10 1000 800) = None)
      by (apply (Hall (Layer "SRTM peaks" [feat 0 0 0 10 1000 800])); by left).
    discriminate Hg.
Defined.

(** Each of the three records of the three-layer sample is among its
    own anchor and col neighbours. *)
Lemma merge_self_neighbour_witness :
  summits3 = [Summit "SRTM" 1000 800 (P 0 0) (P 0 10);
              Summit "ASTER" 1010 790 (P 2 0) (P 4 10);
              Summit "ALOS" 990 810 (P 4 0) (P 8 10)] ∧
  2 < length summits3 ∧
  2 ∈ nbr_s summits3 (inject_Z 5) 2 ∧ 2 ∈ nbr_c summits3 (inject_Z 5) 2.
Proof.
  assert (H : 2 < length summits3) by (vm_compute; lia).
  split; [vm_compute; reflexivity|]. split; [exact H|].
  exact (merge_self_neighbour summits3 (inject_Z 5) 2 H).
Defined.

(** The three-layer sample, given in reverse order. *)
Lemma merge_layer_order_witness :
  configure layers3 = Ok ll3 ∧ layers3 ≡ₚ rev layers3 ∧
  configure (rev layers3) = Ok ll3 ∧
  processAlgorithm (rev layers3) (inject_Z 5) =
    processAlgorithm layers3 (inject_Z 5).
Proof.
  assert (H1 : configure layers3 = Ok ll3) by (vm_compute; reflexivity).
  assert (H2 : layers3 ≡ₚ rev layers3) by apply Permutation_rev.
  split; [exact H1|]. split; [exact H2|].
  exact (merge_layer_order _ _ (inject_Z 5) _ H1 H2).
Defined.

(** The group of two SRTM records and one ASTER record: the SRTM values
    are those of the last SRTM member, record 1. *)
Lemma aggregate_dem_values_witness :
  features_grp.1 !! 0 = Some fg ∧
  f_elev fg !! "SRTM" = Some (1131, 1000)%Z ∧
  f_elev fg !! "ASTER" = Some (1100, 990)%Z ∧
  ∃ m, [[0; 1; 2]] !! 0 = Some m ∧
    ∀ d e c, f_elev fg !! d = Some (e, c) ↔
      ∃ q i, m !! q = Some i ∧ s_dem (summit_at peaks_grp i) = d ∧
        s_ele (summit_at peaks_grp i) = e ∧ s_col (summit_at peaks_grp i) = c ∧
        ∀ q' i', q < q' → m !! q' = Some i' →
          s_dem (summit_at peaks_grp i') ≠ d.
Proof.
  assert (H : features_grp.1 !! 0 = Some fg) by (vm_compute; reflexivity).
  split; [exact H|]. split; [vm_compute; reflexivity|].
  split; [vm_compute; reflexivity|].
  exact (aggregate_dem_values peaks_grp (fun _ => []) (fun _ => [])
           [[0; 1; 2]] 0 fg H).
Defined.

End Samples.
End MergeExtras.

Module TopoExtras.
Import Spatial Topo PyFacts SpatialFacts FoldFacts.

Lemma sp_reference_keeps f rf i m f' m' n :
  sp_reference f rf i m = (f', m', n) →
  t_ID f' = t_ID f ∧ t_fid f' = t_fid f ∧ t_Name f' = t_Name f ∧
  t_Elevation f' = t_Elevation f ∧ t_Col f' = t_Col f ∧
  (m' = m ∨ (m' = (m ++ [i])%list ∧ contains "switch" (r_action rf) = false)).
Proof.
  unfold sp_reference. destruct (contains "switch" (r_action rf)) eqn:E;
    intros H; injection H as <- <- <-; simpl; tauto.
Qed.

Lemma sp_elevation_keeps f rf n f' n' :
  sp_elevation f rf n = (f', n') →
  t_ID f' = t_ID f ∧ t_fid f' = t_fid f ∧ t_Name f' = t_Name f ∧
  t_Col f' = t_Col f ∧
  (truthy_Z (t_Elevation f) = true → t_Elevation f' = t_Elevation f).
Proof.
  unfold sp_elevation. destruct (truthy_Z (t_Elevation f)) eqn:T.
  { intros H. by injection H as <- <-. }
  destruct (r_check_ele rf) as [s|]; [|intros H; by injection H as <- <-].
  destruct (truthy_str (Some s)); [|intros H; by injection H as <- <-].
  destruct (isdecimal s); intros H; injection H as <- <-; done.
Qed.

Lemma sp_col_keeps f rf n f' n' :
  sp_col f rf n = (f', n') →
  t_ID f' = t_ID f ∧ t_fid f' = t_fid f ∧ t_Name f' = t_Name f ∧
  t_Elevation f' = t_Elevation f ∧
  (truthy_Z (t_Col f) = true → t_Col f' = t_Col f).
Proof.
  unfold sp_col. destruct (truthy_Z (t_Col f)) eqn:T.
  { intros H. by injection H as <- <-. }
  destruct (r_check_col rf) as [s|]; [|intros H; by injection H as <- <-].
  destruct (truthy_str (Some s)); [|intros H; by injection H as <- <-].
  destruct (isdecimal s); intros H; injection H as <- <-; done.
Qed.

Lemma finish_keeps f notes :
  let g := write_notes (update_prominence f) notes in
  t_ID g = t_ID f ∧ t_fid g = t_fid f ∧ t_Name g = t_Name f ∧
  t_Elevation g = t_Elevation f ∧ t_Col g = t_Col f.
Proof.
  destruct f as [fid id nm el co rf pr nt g]. unfold update_prominence. simpl.
  destruct el as [e|], co as [c|]; simpl;
    try destruct (negb (Z.eqb e 0) && negb (Z.eqb c 0));
    destruct notes; done.
Qed.

(** What one step does to a record and to the loop state. *)
Lemma sp_step_spec rl st f st' g :
  sp_step rl st f = Ok (st', g) →
  t_ID g = t_ID f ∧ t_fid g = t_fid f ∧
  (truthy_str (t_Name f) = true → t_Name g = t_Name f) ∧
  (truthy_Z (t_Elevation f) = true → t_Elevation g = t_Elevation f) ∧
  (truthy_Z (t_Col f) = true → t_Col g = t_Col f) ∧
  (nearestNeighbor (ref_anchor_index rl) (fst (t_geom f)) 1 tol_summit = [] →
   st' = st ∧ g = f) ∧
  (∀ x, x ∈ sp_matched st' → x ∈ sp_matched st ∨
     ∃ rf, rl !! x = Some rf ∧ contains "switch" (r_action rf) = false) ∧
  (∀ x id, sp_candidate st' !! x = Some id → sp_candidate st !! x = Some id ∨
     (id = t_ID f ∧
      x ∈ nearestNeighbor (ref_anchor_index rl) (fst (t_geom f)) 1 tol_summit ∧
      x ∉ nearestNeighbor (ref_col_index rl) (snd (t_geom f)) 1 tol_col)).
Proof.
  unfold sp_step.
  destruct (nearestNeighbor (ref_anchor_index rl) (fst (t_geom f)) 1 tol_summit)
    as [|i rest] eqn:Hnn.
  { intros H. injection H as <- <-. repeat split; auto. }
  unfold sp_match.
  destruct (decide (i ∈ _)) as [Hij|Hij].
  - destruct (rl !! i) as [rf|] eqn:Hrf; cbn; [|done].
    destruct (sp_reference f rf i (sp_matched st)) as [[f1 m1] n1] eqn:E1.
    destruct (sp_reference_keeps _ _ _ _ _ _ _ E1) as (I1 & D1 & N1 & L1 & C1 & M1).
    set (f2 := if truthy_str (t_Name f1) then f1 else set_Name f1 (r_name rf)).
    assert (t_ID f2 = t_ID f1 ∧ t_fid f2 = t_fid f1 ∧
            (truthy_str (t_Name f1) = true → t_Name f2 = t_Name f1) ∧
            t_Elevation f2 = t_Elevation f1 ∧ t_Col f2 = t_Col f1)
      as (I2 & D2 & N2 & L2 & C2)
      by (subst f2; destruct (truthy_str (t_Name f1)) eqn:T;
          [done|simpl; repeat split; intros; congruence]).
    destruct (sp_elevation f2 rf n1) as [f3 n3] eqn:E3.
    destruct (sp_elevation_keeps _ _ _ _ _ E3) as (I3 & D3 & N3 & C3 & L3).
    destruct (sp_col f3 rf n3) as [f4 n4] eqn:E4.
    destruct (sp_col_keeps _ _ _ _ _ E4) as (I4 & D4 & N4 & L4 & C4).
    cbn. intros H. injection H as <- <-.
    destruct (finish_keeps f4 n4) as (I5 & D5 & N5 & L5 & C5).
    rewrite I5, D5, N5, L5, C5, I4, D4, N4, I3, D3, N3, I2, D2, I1, D1.
    split; [done|]. split; [done|].
    split; [intros T; rewrite <-N1 in T |- *; by apply N2|].
    split; [intros T; rewrite L4, L3; by rewrite L2, L1|].
    split; [intros T; rewrite C4; by rewrite C3, C2, C1|].
    split; [done|]. simpl. split; [|by left].
    intros x Hx. destruct M1 as [->|[-> Hs]]; [by left|].
    apply elem_of_app in Hx as [Hx|Hx]; [by left|right].
    apply list_elem_of_singleton in Hx as ->. by exists rf.
  - cbn. destruct (sp_notes st) as [notes|]; cbn; [|done].
    intros H. injection H as <- <-.
    destruct (finish_keeps f notes) as (I5 & D5 & N5 & L5 & C5).
    rewrite I5, D5, N5, L5, C5. repeat split; try done; simpl.
    { intros x Hx. by left. }
    intros x id Hx. apply lookup_insert_Some in Hx as [[-> <-]|[_ Hx]];
      [right|by left].
    split; [done|]. split; [by left|done].
Qed.

Lemma sp_loop_spec rl st source st' out :
  sp_loop rl st source = Ok (st', out) →
  length out = length source ∧
  (∀ p f g, source !! p = Some f → out !! p = Some g →
     ∃ s1 s2, sp_step rl s1 f = Ok (s2, g)) ∧
  (∀ x, x ∈ sp_matched st' → x ∈ sp_matched st ∨
     ∃ rf, rl !! x = Some rf ∧ contains "switch" (r_action rf) = false) ∧
  (∀ x id, sp_candidate st' !! x = Some id → sp_candidate st !! x = Some id ∨
     ∃ f, f ∈ source ∧ id = t_ID f ∧
       x ∈ nearestNeighbor (ref_anchor_index rl) (fst (t_geom f)) 1 tol_summit ∧
       x ∉ nearestNeighbor (ref_col_index rl) (snd (t_geom f)) 1 tol_col).
Proof.
  revert st st' out. induction source as [|f fs IH]; intros st st' out H;
    simpl in H.
  { injection H as <- <-. split; [done|]. split; [intros p f g Hf; done|].
    split; [by left|]. intros x id Hx. by left. }
  destruct (sp_step rl st f) as [[st1 g]|e] eqn:E; cbn in H; [|done].
  destruct (sp_loop rl st1 fs) as [[st2 out']|e] eqn:E2; cbn in H; [|done].
  injection H as <- <-.
  destruct (IH _ _ _ E2) as (Hlen & Hpos & Hm & Hc).
  destruct (sp_step_spec _ _ _ _ _ E) as (_ & _ & _ & _ & _ & _ & Sm & Sc).
  split; [simpl; by rewrite Hlen|].
  split.
  { intros [|p] f' g' Hf Hg; simpl in Hf, Hg.
    - injection Hf as <-. injection Hg as <-. eauto.
    - by apply (Hpos p). }
  split.
  { intros x Hx. apply Hm in Hx as [Hx|Hx]; [|by right]. by apply Sm. }
  intros x id Hx. apply Hc in Hx as [Hx|(f' & Hf' & Hrest)].
  - apply Sc in Hx as [Hx|Hx]; [by left|right].
    exists f. split; [by left|]. tauto.
  - right. exists f'. split; [by right|]. done.
Qed.

(** Spatial mode outputs one record per source record, in source order,
    keeping each record's [fid] and [ID]; a record with no reference
    entry within the summit tolerance is output unchanged. *)
Theorem spatial_output_order (source : list tfeature)
  (reference : list ref_entry) out rem
  (Hrun : spatial_run source reference = Ok (out, rem)) :
  length out = length source ∧
  ∀ p f g, source !! p = Some f → out !! p = Some g →
    t_ID g = t_ID f ∧ t_fid g = t_fid f ∧
    ((∀ e, e ∈ ref_anchor_index (ref_list reference) →
       within tol_summit (fst (t_geom f)) e = false) → g = f).
Proof.
  unfold spatial_run in Hrun.
  destruct (sp_loop _ sp_init source) as [[st o]|e] eqn:E; cbn in Hrun; [|done].
  injection Hrun as <- _.
  destruct (sp_loop_spec _ _ _ _ _ E) as (Hlen & Hpos & _ & _).
  split; [done|]. intros p f g Hf Hg.
  destruct (Hpos p f g Hf Hg) as (s1 & s2 & Hs).
  destruct (sp_step_spec _ _ _ _ _ Hs) as (I & D & _ & _ & _ & Z & _).
  split; [done|]. split; [done|]. intros Hnone. apply Z.
  by apply nearestNeighbor_nil.
Qed.

(** Spatial mode never overwrites a present value: a record's [Name],
    [Elevation] or [Col] that is set (non-empty, non-zero) is output
    unchanged. *)
Theorem spatial_keeps_present (source : list tfeature)
  (reference : list ref_entry) out rem
  (Hrun : spatial_run source reference = Ok (out, rem)) :
  ∀ p f g, source !! p = Some f → out !! p = Some g →
    (truthy_str (t_Name f) = true → t_Name g = t_Name f) ∧
    (truthy_Z (t_Elevation f) = true → t_Elevation g = t_Elevation f) ∧
    (truthy_Z (t_Col f) = true → t_Col g = t_Col f).
Proof.
  unfold spatial_run in Hrun.
  destruct (sp_loop _ sp_init source) as [[st o]|e] eqn:E; cbn in Hrun; [|done].
  injection Hrun as <- _.
  destruct (sp_loop_spec _ _ _ _ _ E) as (_ & Hpos & _ & _).
  intros p f g Hf Hg.
  destruct (Hpos p f g Hf Hg) as (s1 & s2 & Hs).
  destruct (sp_step_spec _ _ _ _ _ Hs) as (_ & _ & N & L & C & _). done.
Qed.

Lemma elem_of_enumerate {A} (l : list A) i x :
  (i, x) ∈ Py.enumerate l ↔ l !! i = Some x.
Proof.
  rewrite list_elem_of_lookup. split.
  - intros [q Hq]. rewrite lookup_enumerate in Hq.
    destruct (l !! q) eqn:E; simplify_eq/=. done.
  - intros H. exists i. rewrite lookup_enumerate, H. done.
Qed.

(** The unmatched entries spatial mode reports come from the reference
    layer, have a geometry and are not marked delete; every entry with a
    geometry, not marked delete, whose action contains switch is among
    them. *)
Theorem spatial_remainder (source : list tfeature)
  (reference : list ref_entry) out rem
  (Hrun : spatial_run source reference = Ok (out, rem)) :
  (∀ r c, (r, c) ∈ rem →
     r ∈ reference ∧ r_geom r ≠ None ∧ r_action r ≠ "delete"%string) ∧
  (∀ r, r ∈ reference → r_geom r ≠ None → r_action r ≠ "delete"%string →
     contains "switch" (r_action r) = true → ∃ c, (r, c) ∈ rem).
Proof.
  unfold spatial_run in Hrun.
  destruct (sp_loop _ sp_init source) as [[st o]|e] eqn:E; cbn in Hrun; [|done].
  injection Hrun as _ <-.
  destruct (sp_loop_spec _ _ _ _ _ E) as (_ & _ & Hm & _).
  split.
  - intros r c Hr. apply list_elem_of_omap in Hr as ([i r'] & Hi & Hs).
    destruct (decide (i ∈ sp_matched st)); [done|]. injection Hs as -> _.
    apply elem_of_enumerate, list_elem_of_lookup_2 in Hi.
    unfold ref_list in Hi. apply list_elem_of_In, filter_In in Hi as [Hin Hg].
    split; [by apply list_elem_of_In|].
    destruct (r_geom r) as [g|]; [|done]. split; [done|].
    intros Hd. rewrite Hd in Hg. done.
  - intros r Hr Hg Hd Hs.
    assert (Hin : r ∈ ref_list reference).
    { unfold ref_list. apply list_elem_of_In, filter_In.
      split; [by apply list_elem_of_In|].
      destruct (r_geom r) as [g|]; [|done].
      apply negb_true_iff, String.eqb_neq. done. }
    apply list_elem_of_lookup in Hin as [i Hi].
    exists (sp_candidate st !! i). apply list_elem_of_omap.
    exists (i, r). split; [by apply elem_of_enumerate|].
    destruct (decide (i ∈ sp_matched st)) as [Hmi|]; [|done].
    exfalso. apply Hm in Hmi as [Hmi|(rf & Hrf & Hns)].
    + by apply elem_of_nil in Hmi.
    + rewrite Hi in Hrf. injection Hrf as <-. congruence.
Qed.

(** A candidate named for an unmatched entry is the [ID] of a source
    record whose summit has that entry as its nearest entry within the
    summit tolerance, and whose col does not have it as its nearest
    entry within the col tolerance. *)
Theorem spatial_candidates (source : list tfeature)
  (reference : list ref_entry) out rem
  (Hrun : spatial_run source reference = Ok (out, rem)) :
  ∀ r id, (r, Some id) ∈ rem →
    ∃ f i, f ∈ source ∧ t_ID f = id ∧ ref_list reference !! i = Some r ∧
      within tol_summit (fst (t_geom f)) (i, ref_vertex r 0 (Pt 0 0)) = true ∧
      (∀ e, e ∈ ref_anchor_index (ref_list reference) →
         within tol_summit (fst (t_geom f)) e = true →
         (sqdist (fst (t_geom f)) (ref_vertex r 0 (Pt 0 0)) <=
          sqdist (fst (t_geom f)) (snd e))%Q) ∧
      ¬ (within tol_col (snd (t_geom f)) (i, ref_vertex r 1 (Pt 0 0)) = true ∧
         ∀ e, e ∈ ref_col_index (ref_list reference) →
           within tol_col (snd (t_geom f)) e = true →
           (sqdist (snd (t_geom f)) (ref_vertex r 1 (Pt 0 0)) <=
            sqdist (snd (t_geom f)) (snd e))%Q).
Proof.
  unfold spatial_run in Hrun.
  destruct (sp_loop _ sp_init source) as [[st o]|e] eqn:E; cbn in Hrun; [|done].
  injection Hrun as _ <-.
  destruct (sp_loop_spec _ _ _ _ _ E) as (_ & _ & _ & Hc).
  intros r id Hr. apply list_elem_of_omap in Hr as ([i r'] & Hi & Hs).
  destruct (decide (i ∈ sp_matched st)); [done|]. injection Hs as -> Hid.
  apply elem_of_enumerate in Hi.
  apply Hc in Hid as [Hid|(f & Hf & -> & Ha & Hcol)];
    [change (sp_candidate sp_init) with (∅ : gmap nat string) in Hid;
     by rewrite lookup_empty in Hid|].
  exists f, i. split; [done|]. split; [done|]. split; [done|].
  assert (Hv : ∀ k p, (i, p) ∈ Py.enumerate
                 (map (fun r0 => ref_vertex r0 k (Pt 0 0)) (ref_list reference)) →
               p = ref_vertex r k (Pt 0 0)).
  { intros k p Hp. apply elem_of_enumerate in Hp.
    rewrite list_lookup_fmap, Hi in Hp. by injection Hp as <-. }
  apply nearestNeighbor_1 in Ha as (p & Hp & Hw & Hmin).
  unfold ref_anchor_index in Hp. rewrite (Hv 0 p Hp) in Hw, Hmin.
  split; [done|]. split; [done|].
  intros [Hwc Hminc]. apply Hcol. apply nearestNeighbor_1.
  exists (ref_vertex r 1 (Pt 0 0)). split; [|done].
  unfold ref_col_index. apply elem_of_enumerate.
  rewrite list_lookup_fmap, Hi. done.
Qed.

Lemma sp_loop_no_reference st source : sp_loop [] st source = Ok (st, source).
Proof.
  induction source as [|f fs IH]; simpl; [done|].
  unfold sp_step. simpl. rewrite IH. done.
Qed.

(** With no usable reference entry (none with a geometry and not marked
    delete), spatial mode returns the source records unchanged and
    reports no unmatched entry. *)
Theorem spatial_no_reference (source : list tfeature)
  (reference : list ref_entry) (Hnone : ref_list reference = []) :
  spatial_run source reference = Ok (source, []).
Proof.
  unfold spatial_run. rewrite Hnone, sp_loop_no_reference. done.
Qed.

(** The key-mode index maps a non-empty [Match] value to the last
    reference entry carrying it, and has no other keys. *)
Theorem build_refs_last (reference : list ref_entry) (k : string) (r : ref_entry) :
  build_refs reference !! k = Some r ↔
  k ≠ ""%string ∧
  ∃ q, reference !! q = Some r ∧ r_Match r = Some k ∧
    ∀ q' r', q < q' → reference !! q' = Some r' → r_Match r' ≠ Some k.
Proof.
  set (key := fun r : ref_entry => match r_Match r with
              | Some k => if truthy_str (Some k) then Some k else None
              | None => None end).
  assert (Hb : build_refs reference =
    fold_left (fun acc x => match key x with
                            | Some k' => <[k' := x]> acc
                            | None => acc
                            end) reference ∅).
  { unfold build_refs. apply fold_left_ext_fun. intros d x. unfold key.
    destruct (r_Match x) as [k'|]; [|done]. by destruct (truthy_str (Some k')). }
  assert (Hkey : ∀ x, key x = Some k ↔ r_Match x = Some k ∧ k ≠ ""%string).
  { intros x. unfold key. destruct (r_Match x) as [k'|]; [|naive_solver].
    unfold truthy_str. destruct (String.eqb k' "") eqn:E; simpl.
    - apply String.eqb_eq in E as ->. naive_solver.
    - apply String.eqb_neq in E. naive_solver. }
  rewrite Hb, (fold_insert_lookup key (fun x => x)). split.
  - intros (q & x & Hq & Hk & <- & Hlt). apply Hkey in Hk as [Hm Hne].
    split; [done|]. exists q. do 2 (split; [done|]).
    intros q' r' Hq' Hr' Hm'. apply (Hlt q' r' Hq' Hr'). by apply Hkey.
  - intros (Hne & q & Hq & Hm & Hlt). exists q, r.
    split; [done|]. split; [by apply Hkey|]. split; [done|].
    intros q' r' Hq' Hr' Hk'. apply Hkey in Hk' as [Hm' _].
    by apply (Hlt q' r').
Qed.

Lemma sort_key_Err f e :
  sort_key f = Err e ↔
  e = TypeError ∧ truthy_str (t_Reference f) = false ∧ t_Prominence f = None.
Proof.
  unfold sort_key. destruct (t_Reference f) as [r|].
  - destruct (truthy_str (Some r)); [naive_solver|].
    destruct (t_Prominence f); naive_solver.
  - destruct (t_Prominence f); naive_solver.
Qed.

(** Over records whose actions are strings, key mode fails exactly when
    some record ends up with neither a reference nor a prominence after
    its update, and the error is TypeError. *)
Lemma key_run_Err (source : list tfeature)
  (reference : list ref_entry) (e : py_error) :
  key_run source reference = Err e ↔
  e = TypeError ∧
  ∃ f, f ∈ source ∧
    truthy_str (t_Reference (key_update (build_refs reference) f)) = false ∧
    t_Prominence (key_update (build_refs reference) f) = None.
Proof.
  unfold key_run.
  destruct (mapM sort_key (map (key_update (build_refs reference)) source))
    as [keys|e'] eqn:E; cbn.
  - split; [done|]. intros [-> (f & Hf & Hr & Hp)].
    destruct (mapM_Err_2 sort_key (map (key_update (build_refs reference)) source)
                (key_update (build_refs reference) f) TypeError) as [e' He'].
    + apply list_elem_of_In, in_map, list_elem_of_In, Hf.
    + by apply sort_key_Err.
    + congruence.
  - apply mapM_Err in E as (x & Hx & Hk).
    apply sort_key_Err in Hk as (-> & Hr & Hp).
    apply list_elem_of_In, in_map_iff in Hx as (f & <- & Hf).
    split; [intros [= <-]|intros [-> _]; done].
    split; [done|]. exists f. split; [by apply list_elem_of_In|done].
Qed.

(** Key mode raises no error but TypeError; and it raises TypeError
    whenever some record ends up with neither a reference nor a
    prominence after its update: its sort key [(1, -f['Prominence'])]
    negates None. It is not the only cause of TypeError: a matched entry
    whose action is NULL raises it too, at ['move' in rf['action']] (line
    66); actions are strings here, and that case is not represented. *)
Theorem key_run_type_error (source : list tfeature)
  (reference : list ref_entry) :
  (∀ e, key_run source reference = Err e → e = TypeError) ∧
  ((∃ f, f ∈ source ∧
     truthy_str (t_Reference (key_update (build_refs reference) f)) = false ∧
     t_Prominence (key_update (build_refs reference) f) = None) →
   key_run source reference = Err TypeError).
Proof.
  split.
  - intros e H. by apply key_run_Err in H as [-> _].
  - intros Hf. by apply key_run_Err.
Qed.

Section Samples.
Import Examples.
Local Open Scope string_scope.

(** Records [sA], [sB] against entries [rA], [rB]. *)
Lemma spatial_output_order_witness :
  spatial_run [sA; sB; sC] [rA; rB] = Ok (spABC.1, spABC.2) ∧
  length spABC.1 = 3 ∧
  (∀ e, e ∈ ref_anchor_index (ref_list [rA; rB]) →
     within tol_summit (fst (t_geom sC)) e = false) ∧
  spABC.1 !! 2 = Some sC.
Proof.
  assert (H : spatial_run [sA; sB; sC] [rA; rB] = Ok (spABC.1, spABC.2))
    by (vm_compute; reflexivity).
  destruct (spatial_output_order _ _ _ _ H) as [Hlen Hpos].
  assert (Hfar : ∀ e, e ∈ ref_anchor_index (ref_list [rA; rB]) →
                   within tol_summit (fst (t_geom sC)) e = false).
  { assert (E : ref_anchor_index (ref_list [rA; rB]) = [(0, P 0 0); (1, P 10 0)])
      by (vm_compute; reflexivity).
    intros e He. rewrite E in He.
    repeat (apply elem_of_cons in He as [->|He]; [vm_compute; reflexivity|]).
    by apply elem_of_nil in He. }
  split; [exact H|]. split; [exact Hlen|]. split; [exact Hfar|].
  destruct (spABC.1 !! 2) as [g|] eqn:Hg.
  - destruct (Hpos 2 sC g eq_refl Hg) as (_ & _ & Hsame).
    by rewrite (Hsame Hfar).
  - apply lookup_ge_None in Hg. rewrite Hlen in Hg. simpl in Hg. lia.
Defined.

Lemma spatial_keeps_present_witness :
  spatial_run [sA; sB] [rA; rB] = Ok (spAB.1, spAB.2) ∧
  ∀ p f g, [sA; sB] !! p = Some f → spAB.1 !! p = Some g →
    (truthy_str (t_Name f) = true → t_Name g = t_Name f) ∧
    (truthy_Z (t_Elevation f) = true → t_Elevation g = t_Elevation f) ∧
    (truthy_Z (t_Col f) = true → t_Col g = t_Col f).
Proof.
  assert (H : spatial_run [sA; sB] [rA; rB] = Ok (spAB.1, spAB.2))
    by (vm_compute; reflexivity).
  split; [exact H|]. exact (spatial_keeps_present _ _ _ _ H).
Defined.

Lemma spatial_remainder_witness :
  spatial_run [sA; sB] [rA; rB] = Ok (spAB.1, spAB.2) ∧
  (∀ r c, (r, c) ∈ spAB.2 →
     r ∈ [rA; rB] ∧ r_geom r ≠ None ∧ r_action r ≠ "delete") ∧
  (∀ r, r ∈ [rA; rB] → r_geom r ≠ None → r_action r ≠ "delete" →
     contains "switch" (r_action r) = true → ∃ c, (r, c) ∈ spAB.2).
Proof.
  assert (H : spatial_run [sA; sB] [rA; rB] = Ok (spAB.1, spAB.2))
    by (vm_compute; reflexivity).
  split; [exact H|]. exact (spatial_remainder _ _ _ _ H).
Defined.

(** Entry [rB] is left unmatched with candidate ["S0002"], the record
    [sB] whose summit is at [rB] but whose col is not. *)
Lemma spatial_candidates_witness :
  spatial_run [sA; sB] [rA; rB] = Ok (spAB.1, spAB.2) ∧
  (rB, Some "S0002") ∈ spAB.2 ∧
  ∃ f i, f ∈ [sA; sB] ∧ t_ID f = "S0002" ∧ ref_list [rA; rB] !! i = Some rB ∧
    within tol_summit (fst (t_geom f)) (i, ref_vertex rB 0 (Pt 0 0)) = true ∧
    (∀ e, e ∈ ref_anchor_index (ref_list [rA; rB]) →
       within tol_summit (fst (t_geom f)) e = true →
       (sqdist (fst (t_geom f)) (ref_vertex rB 0 (Pt 0 0)) <=
        sqdist (fst (t_geom f)) (snd e))%Q) ∧
    ¬ (within tol_col (snd (t_geom f)) (i, ref_vertex rB 1 (Pt 0 0)) = true ∧
       ∀ e, e ∈ ref_col_index (ref_list [rA; rB]) →
         within tol_col (snd (t_geom f)) e = true →
         (sqdist (snd (t_geom f)) (ref_vertex rB 1 (Pt 0 0)) <=
          sqdist (snd (t_geom f)) (snd e))%Q).
Proof.
  assert (H : spatial_run [sA; sB] [rA; rB] = Ok (spAB.1, spAB.2))
    by (vm_compute; reflexivity).
  assert (E : spAB.2 = [(rB, Some "S0002")]) by (vm_compute; reflexivity).
  assert (Hr : (rB, Some "S0002") ∈ spAB.2)
    by (rewrite E; by apply list_elem_of_singleton).
  split; [exact H|]. split; [exact Hr|].
  exact (spatial_candidates _ _ _ _ H _ _ Hr).
Defined.

(** Entries marked delete or without a geometry are not used. *)
Lemma spatial_no_reference_witness :
  ref_list [rDel; rNoGeom] = [] ∧
  spatial_run [sA; sB] [rDel; rNoGeom] = Ok ([sA; sB], []).
Proof.
  assert (H : ref_list [rDel; rNoGeom] = []) by (vm_compute; reflexivity).
  split; [exact H|]. exact (spatial_no_reference _ _ H).
Defined.

End Samples.
End TopoExtras.
